(** * Task generator (src/App.js): classifier, synthesizer, completion notifier

    A shallow embedding of the decision logic of [src/App.js] and the
    properties its specification states about it.

    - JavaScript strings are sequences of UTF-16 code units: [list N].
    - JavaScript numbers that the program only uses as integers are [Z];
      [NaN] and [undefined] are [None].
    - Regular expressions are a small syntax with the backtracking matcher
      of ECMAScript (continuation passing, alternatives left to right,
      greedy quantifiers).
    - The ambient effects ([Math.random], [Date], [fetch], [console]) are
      an explicit [World] threaded through a state monad; React state is
      the record [AppState]. *)

From Stdlib Require Import String Ascii.
From Stdlib Require Import List ZArith NArith Bool Lia.
Import ListNotations.

Set Implicit Arguments.

(** ** Strings *)

Definition jsstring := list N.

(** A string literal of the source that is pure ASCII. *)
Definition lit (s : string) : jsstring :=
  map N_of_ascii (list_ascii_of_string s).

Definition jsstring_eqb (a b : jsstring) : bool :=
  if list_eq_dec N.eq_dec a b then true else false.

(** [x || ""] on a string: the empty string is the only falsy one. *)
Definition or_else (x d : jsstring) : jsstring :=
  match x with [] => d | _ => x end.

Definition in_range (lo hi c : N) : bool := (lo <=? c)%N && (c <=? hi)%N.

(** [\d] *)
Definition isDigit (c : N) : bool := in_range 48 57 c.

(** LineTerminator: LF, CR, LS, PS. *)
Definition isLineTerminator (c : N) : bool :=
  existsb (N.eqb c) [10; 13; 8232; 8233]%N.

(** WhiteSpace and LineTerminator, the set of [\s] and of [trim]:
    TAB, LF, VT, FF, CR, SP, NBSP, U+1680, U+2000..U+200A, LS, PS,
    U+202F, U+205F, U+3000, U+FEFF. *)
Definition isWhiteSpace (c : N) : bool :=
  in_range 9 13 c
  || existsb (N.eqb c) [32; 160; 5760; 8232; 8233; 8239; 8287; 12288; 65279]%N
  || in_range 8192 8202 c.

(** [.] without the [s] flag. *)
Definition isDot (c : N) : bool := negb (isLineTerminator c).

Fixpoint dropWhile (p : N -> bool) (s : jsstring) : jsstring :=
  match s with
  | c :: s' => if p c then dropWhile p s' else s
  | [] => []
  end.

Fixpoint takeWhile (p : N -> bool) (s : jsstring) : jsstring :=
  match s with
  | c :: s' => if p c then c :: takeWhile p s' else []
  | [] => []
  end.

(** [String.prototype.trim] *)
Definition trim (s : jsstring) : jsstring :=
  rev (dropWhile isWhiteSpace (rev (dropWhile isWhiteSpace s))).

(** [String.prototype.toLowerCase], one code unit at a time.  Basic Latin
    capitals go to their small letters.  Two code points outside ASCII
    have a lower-case mapping that contains an ASCII letter: KELVIN SIGN
    (U+212A, to k) and LATIN CAPITAL LETTER I WITH DOT ABOVE (U+0130, to
    i followed by U+0307).  Every other code unit is kept: its real
    mapping is a code unit outside ASCII that is no line terminator, and
    the patterns of [inferDomain] cannot tell two such units apart. *)
Definition lowerUnit (c : N) : jsstring :=
  if in_range 65 90 c then [c + 32]%N
  else if (c =? 8490)%N then [107]%N
  else if (c =? 304)%N then [105; 775]%N
  else [c].

Definition toLowerCase (s : jsstring) : jsstring := flat_map lowerUnit s.

(** ** Numbers *)

Definition digitValue (c : N) : Z := (Z.of_N c - 48)%Z.

Definition digitsValue (ds : jsstring) : Z :=
  fold_left (fun acc c => 10 * acc + digitValue c)%Z ds 0%Z.

(** [parseInt(s, 10)]: leading white space, an optional sign, then the
    longest run of decimal digits; [None] is [NaN].  The value is the
    exact integer; the program only compares it with 3 and 5, which the
    rounding of a double does not change. *)
Definition parseInt10 (s : jsstring) : option Z :=
  let s1 := dropWhile isWhiteSpace s in
  let '(sign, s2) :=
    match s1 with
    | c :: r =>
        if (c =? 45)%N then ((-1)%Z, r)        (* - *)
        else if (c =? 43)%N then (1%Z, r)      (* + *)
        else (1%Z, s1)
    | [] => (1%Z, s1)
    end in
  match takeWhile isDigit s2 with
  | [] => None
  | ds => Some (sign * digitsValue ds)%Z
  end.

(** [Math.max] and [Math.min] of two arguments; [NaN] is contagious. *)
Definition Math_max (a b : option Z) : option Z :=
  match a, b with Some x, Some y => Some (Z.max x y) | _, _ => None end.

Definition Math_min (a b : option Z) : option Z :=
  match a, b with Some x, Some y => Some (Z.min x y) | _, _ => None end.

(** [arr.slice(0, end)]: a negative [end] counts from the back, [NaN] is 0. *)
Definition slice0 {A} (l : list A) (e : option Z) : list A :=
  match e with
  | None => []
  | Some n =>
      if (n <? 0)%Z
      then firstn (Z.to_nat (Z.max 0 (Z.of_nat (length l) + n))) l
      else firstn (Z.to_nat n) l
  end.

Fixpoint uintUnits (d : Decimal.uint) : jsstring :=
  match d with
  | Decimal.Nil => []
  | Decimal.D0 r => 48%N :: uintUnits r
  | Decimal.D1 r => 49%N :: uintUnits r
  | Decimal.D2 r => 50%N :: uintUnits r
  | Decimal.D3 r => 51%N :: uintUnits r
  | Decimal.D4 r => 52%N :: uintUnits r
  | Decimal.D5 r => 53%N :: uintUnits r
  | Decimal.D6 r => 54%N :: uintUnits r
  | Decimal.D7 r => 55%N :: uintUnits r
  | Decimal.D8 r => 56%N :: uintUnits r
  | Decimal.D9 r => 57%N :: uintUnits r
  end.

(** A non-negative integer in a template literal: its decimal digits. *)
Definition decimal (n : N) : jsstring := uintUnits (N.to_uint n).

(** ** Regular expressions *)

Inductive regex :=
| Chars (s : jsstring)            (* a run of pattern characters *)
| Star (p : N -> bool)            (* c*, greedy, c a character class *)
| Plus (p : N -> bool)            (* c+, greedy *)
| Seq (r1 r2 : regex)
| Alt (r1 r2 : regex)
| Group (r : regex).              (* ( ... ), capturing *)

Fixpoint stripPrefix (p s : jsstring) : option jsstring :=
  match p, s with
  | [], _ => Some s
  | a :: p', b :: s' => if (a =? b)%N then stripPrefix p' s' else None
  | _ :: _, [] => None
  end.

Section Matcher.
Variable R : Type.

(** Greedy iteration of a class: the longest run first, then shorter
    ones when the continuation fails. *)
Fixpoint star (p : N -> bool) (s : jsstring) (k : jsstring -> option R)
  : option R :=
  match s with
  | c :: s' =>
      if p c then
        match star p s' k with
        | Some x => Some x
        | None => k s
        end
      else k s
  | [] => k s
  end.

(** [matcher r s caps k]: match [r] at the front of [s], then run [k]
    on the rest of the input and the captures so far. *)
Fixpoint matcher (r : regex) (s : jsstring) (caps : list jsstring)
  (k : jsstring -> list jsstring -> option R) : option R :=
  match r with
  | Chars l =>
      match stripPrefix l s with
      | Some s' => k s' caps
      | None => None
      end
  | Star p => star p s (fun s' => k s' caps)
  | Plus p =>
      match s with
      | c :: s' => if p c then star p s' (fun s'' => k s'' caps) else None
      | [] => None
      end
  | Seq r1 r2 => matcher r1 s caps (fun s' caps' => matcher r2 s' caps' k)
  | Alt r1 r2 =>
      match matcher r1 s caps k with
      | Some x => Some x
      | None => matcher r2 s caps k
      end
  | Group r1 =>
      matcher r1 s caps
        (fun s' caps' => k s' (caps' ++ [firstn (length s - length s') s]))
  end.
End Matcher.

(** The match array: element 0 is the matched text, the rest are the
    captures. *)
Definition matchAt (r : regex) (s : jsstring) : option (list jsstring) :=
  matcher r s []
    (fun s' caps => Some (firstn (length s - length s') s :: caps)).

(** [RegExp.prototype.exec] without the [g] flag: the first start
    position, from the left, at which the pattern matches. *)
Fixpoint exec (r : regex) (s : jsstring) : option (list jsstring) :=
  match matchAt r s with
  | Some m => Some m
  | None =>
      match s with
      | [] => None
      | _ :: s' => exec r s'
      end
  end.

(** [re.test(s)] *)
Definition test (r : regex) (s : jsstring) : bool :=
  match exec r s with Some _ => true | None => false end.

(** [s.match(re)]; [None] is [null]. *)
Definition String_match (s : jsstring) (r : regex) : option (list jsstring) :=
  exec r s.


(** ** Static data *)

Definition en_dash : N := 8211%N.

Definition DEFAULT_TIMEFRAMES : list jsstring :=
  [ lit "15 minutes";
    lit "30 minutes";
    lit "1 hour";
    lit "2 hours";
    lit "Half day";
    lit "1 day";
    lit "2" ++ [en_dash] ++ lit "3 days" ].

(** [arr[i]] for a number [i] that is an integer: [None] ([undefined])
    outside the array, also for a negative index. *)
Definition index {A} (arr : list A) (i : Z) : option A :=
  if (i <? 0)%Z then None else nth_error arr (Z.to_nat i).

(** [pickTimeframe(idx)].  [%] is the remainder that takes the sign of
    the dividend.  Every call in the program passes [idx]; the default
    [idx = 0] is [pickTimeframe 0]. *)
Definition pickTimeframe (idx : Z) : option jsstring :=
  index DEFAULT_TIMEFRAMES (Z.rem idx (Z.of_nat (length DEFAULT_TIMEFRAMES))).

Inductive Domain := exam | moving | pc | travel | fitness | generic.

Definition re_exam : regex :=
  Group (Alt (Chars (lit "exam")) (Alt (Chars (lit "study"))
        (Alt (Chars (lit "college")) (Alt (Chars (lit "test"))
        (Chars (lit "syllabus")))))).

Definition re_moving : regex :=
  Group (Alt (Chars (lit "move")) (Alt (Chars (lit "relocat"))
        (Alt (Chars (lit "apartment")) (Alt (Chars (lit "pack"))
        (Chars (lit "shifting")))))).

Definition re_pc : regex :=
  Group (Alt (Chars (lit "pc"))
        (Alt (Seq (Chars (lit "build")) (Seq (Star isDot) (Chars (lit "computer"))))
        (Alt (Seq (Chars (lit "gaming")) (Seq (Star isDot) (Chars (lit "rig"))))
        (Alt (Chars (lit "components"))
        (Chars (lit "parts")))))).

Definition re_travel : regex :=
  Group (Alt (Chars (lit "travel")) (Alt (Chars (lit "trip"))
        (Alt (Chars (lit "itinerary")) (Alt (Chars (lit "flight"))
        (Chars (lit "hotel")))))).

Definition re_fitness : regex :=
  Group (Alt (Chars (lit "fitness")) (Alt (Chars (lit "workout"))
        (Alt (Chars (lit "diet")) (Alt (Chars (lit "health"))
        (Chars (lit "gym")))))).

(** [/(\d+)\s*task/] *)
Definition re_count : regex :=
  Seq (Group (Plus isDigit)) (Seq (Star isWhiteSpace) (Chars (lit "task"))).

Definition inferDomain (context : jsstring) : Domain :=
  let lc := toLowerCase context in
  if test re_exam lc then exam
  else if test re_moving lc then moving
  else if test re_pc lc then pc
  else if test re_travel lc then travel
  else if test re_fitness lc then fitness
  else generic.

Inductive Role := research | plan | resources | execute | review.

(** The array [base] of [generateTasks]: key and display name. *)
Definition base : list (Role * jsstring) :=
  [ (research, lit "Research essentials");
    (plan, lit "Draft a plan");
    (resources, lit "List resources & tools");
    (execute, lit "Execute first milestone");
    (review, lit "Review & next steps") ].

Definition domainHints (d : Domain) (r : Role) : jsstring :=
  match d, r with
  | exam, research => lit "Outline subjects and weightage from the syllabus."
  | exam, plan => lit "Create a 2-week timetable with daily topics."
  | exam, resources => lit "Gather notes, past papers, and flashcards."
  | exam, execute => lit "Study the first topic and attempt 10 practice questions."
  | exam, review => lit "Revise mistakes and adjust timetable."
  | moving, research => lit "List must-have vs. discard items."
  | moving, plan => lit "Create packing schedule and room-wise checklist."
  | moving, resources => lit "Arrange boxes, labels, and transport."
  | moving, execute => lit "Pack non-essentials and label boxes."
  | moving, review => lit "Confirm mover timings; update address where needed."
  | pc, research => lit "Pick target use-case, budget, and performance goals."
  | pc, plan => lit "Draft parts list (CPU, GPU, RAM, SSD, PSU, case)."
  | pc, resources => lit "Compare prices; ensure component compatibility."
  | pc, execute => lit "Order parts or assemble mock build in a PCPartPicker clone."
  | pc, review => lit "Cable-manage, run benchmarks, and validate thermals."
  | travel, research => lit "Choose destination, season, and budget."
  | travel, plan =>
      lit "Sketch a 3" ++ [en_dash] ++ lit "5 day itinerary with must-see spots."
  | travel, resources => lit "Check visas, flights, accommodation, and insurance."
  | travel, execute => lit "Book flights/hotels and set calendar reminders."
  | travel, review => lit "Share itinerary and offline maps to your phone."
  | fitness, research => lit "Define goals (strength, fat-loss, endurance)."
  | fitness, plan =>
      lit "Schedule 3" ++ [en_dash]
        ++ lit "4 weekly sessions with progressive overload."
  | fitness, resources => lit "Set up gear, nutrition plan, and tracker app."
  | fitness, execute => lit "Complete first workout and log metrics."
  | fitness, review => lit "Assess soreness, sleep, and adjust plan."
  | generic, research => lit "Clarify objectives and success criteria."
  | generic, plan => lit "Break work into 3" ++ [en_dash] ++ lit "5 milestones."
  | generic, resources => lit "List tools, people, or budget needed."
  | generic, execute => lit "Complete first milestone with a small deliverable."
  | generic, review => lit "Retrospect and plan the next block."
  end.

(** ** Tasks, the world and the state monad *)

Record Task := mkTask {
  id : jsstring;
  name : jsstring;
  description : jsstring;
  timeframe : option jsstring;      (* [None]: undefined *)
  completed : bool
}.

Unset Elimination Schemes.

Inductive jsval :=
| Undefined
| Str (s : jsstring)
| Num (n : Z)
| Bool (b : bool)
| Obj (props : list (jsstring * jsval)).

(** The value a JSON text denotes. *)
Inductive json :=
| JStr (s : jsstring)
| JNum (n : Z)
| JBool (b : bool)
| JObj (members : list (jsstring * json)).

Set Elimination Schemes.

(** [JSON.stringify], up to the text: the JSON value written.  A property
    whose value is undefined is left out; [None] is the result
    [undefined]. *)
Fixpoint JSON_stringify (v : jsval) : option json :=
  match v with
  | Undefined => None
  | Str s => Some (JStr s)
  | Num n => Some (JNum n)
  | Bool b => Some (JBool b)
  | Obj props =>
      Some (JObj ((fix members (ps : list (jsstring * jsval)) :=
                     match ps with
                     | [] => []
                     | (k, x) :: ps' =>
                         match JSON_stringify x with
                         | Some j => (k, j) :: members ps'
                         | None => members ps'
                         end
                     end) props))
  end.

Record Request := mkRequest {
  url : jsstring;
  method : jsstring;
  headers : list (jsstring * jsstring);
  body : option json
}.

Inductive LogEntry :=
| Warn (args : list jsstring)
| Error (args : list jsstring).

(** What the program reads from and does to its surroundings.
    [entropy n] is the string the [n]-th call of [uid] builds from
    [Math.random()] and [Date.now()]; [clock] is the time value of
    [new Date()]; [fetched] are the calls of [fetch], oldest first. *)
Record World := mkWorld {
  entropy : nat -> jsstring;
  uidCalls : nat;
  clock : Z;
  fetched : list Request;
  console : list LogEntry
}.

Definition M (A : Type) : Type := World -> A * World.

Definition ret {A} (x : A) : M A := fun w => (x, w).

Definition bind {A B} (m : M A) (f : A -> M B) : M B :=
  fun w => let '(x, w') := m w in f x w'.

Declare Scope m_scope.
Delimit Scope m_scope with M.
Notation "x <- m ;; k" := (bind m (fun x => k))
  (at level 61, m at next level, right associativity) : m_scope.
Notation "m ;; k" := (bind m (fun _ => k))
  (at level 61, right associativity) : m_scope.
Local Open Scope m_scope.

Definition uid : M jsstring :=
  fun w =>
    (entropy w (uidCalls w),
     mkWorld (entropy w) (S (uidCalls w)) (clock w) (fetched w) (console w)).

Definition newDate : M Z := fun w => (clock w, w).

Definition fetch (rq : Request) : M unit :=
  fun w =>
    (tt, mkWorld (entropy w) (uidCalls w) (clock w) (fetched w ++ [rq])
           (console w)).

Definition console_log (e : LogEntry) : M unit :=
  fun w =>
    (tt, mkWorld (entropy w) (uidCalls w) (clock w) (fetched w)
           (console w ++ [e])).

(** [arr.map((x, i) => f(x, i))] with an effectful callback, from index
    [i] on. *)
Fixpoint mapM_from {A B} (f : A -> Z -> M B) (l : list A) (i : Z)
  : M (list B) :=
  match l with
  | [] => ret []
  | x :: l' =>
      y <- f x i ;;
      ys <- mapM_from f l' (i + 1)%Z ;;
      ret (y :: ys)
  end.

Definition domain_eqb (a b : Domain) : bool :=
  match a, b with
  | exam, exam | moving, moving | pc, pc | travel, travel
  | fitness, fitness | generic, generic => true
  | _, _ => false
  end.

(** The local [desired] of [generateTasks], for the array [tasks] built
    before it. *)
Definition desired (context : jsstring) (tasks : list Task) : option Z :=
  let m := String_match (or_else context []) re_count in
  match m with
  | Some arr =>
      Math_min (Some 5%Z) (Math_max (Some 3%Z) (parseInt10 (nth 1 arr [])))
  | None => Some (Z.of_nat (length tasks))
  end.

Definition generateTasks (context : jsstring) : M (list Task) :=
  let domain := inferDomain (or_else context []) in
  tasks <- mapM_from
             (fun b i =>
                new_id <- uid ;;
                ret {| id := new_id;
                       name := snd b;
                       description := domainHints domain (fst b);
                       timeframe :=
                         pickTimeframe
                           (i + (if domain_eqb domain generic then 1 else 0))%Z;
                       completed := false |})
             base 0%Z ;;
  ret (slice0 tasks (desired context tasks)).

(** ** The component [App] *)

Inductive NoticeType := success | error | info.

Record Notice := mkNotice {
  type : NoticeType;
  message : jsstring
}.

(** The React state the handlers below read and set. *)
Record AppState := mkApp {
  context : jsstring;
  tasks : list Task;
  webhookUrl : jsstring;
  notice : option Notice
}.

Definition setTasks (f : list Task -> list Task) (st : AppState) : AppState :=
  mkApp (context st) (f (tasks st)) (webhookUrl st) (notice st).

Definition setNotice (n : Notice) (st : AppState) : AppState :=
  mkApp (context st) (tasks st) (webhookUrl st) (Some n).

(** [!s] on a string *)
Definition falsy (s : jsstring) : bool :=
  match s with [] => true | _ => false end.

Definition addGenerated (st : AppState) : M AppState :=
  if falsy (trim (context st)) then
    ret (setNotice
           {| type := error;
              message := lit "Please enter some context first." |} st)
  else
    generated <- generateTasks (trim (context st)) ;;
    ret (setNotice
           {| type := success;
              message := lit "Generated "
                           ++ decimal (N.of_nat (length generated))
                           ++ lit " task(s)." |}
           (setTasks (fun _ => generated) st)).

(** How the promise of [res.text()] stands: settled with the text,
    rejected, or not settled (the body has not ended). *)
Inductive BodyRead :=
| TextRead (s : jsstring)
| TextFailed
| TextPending.

(** A [Response]: [ok] is defined by the Fetch standard as a status in
    200..299; [text] is how the promise of [res.text()] stands when the
    callback is looked at. *)
Record Response := mkResponse {
  status : N;
  statusText : jsstring;
  text : BodyRead
}.

Definition ok (res : Response) : bool := in_range 200 299 (status res).

(** The value a rejected [fetch] carries, as far as the handler looks at
    it: [err?.message], [None] when there is none. *)
Record Rejection := mkRejection {
  err_message : option jsstring
}.

Definition of_option (v : option jsstring) : jsval :=
  match v with Some s => Str s | None => Undefined end.

Section Host.
(** [Date.prototype.toISOString] of the host, on a time value. *)
Variable toISOString : Z -> jsstring.

Definition toggleComplete (task : Task) (st : AppState) : M AppState :=
  let updated :=
    {| id := id task; name := name task; description := description task;
       timeframe := timeframe task; completed := negb (completed task) |} in
  let st' :=
    setTasks
      (fun prev =>
         map (fun t => if jsstring_eqb (id t) (id task) then updated else t)
           prev) st in
  if negb (completed task) then
    if falsy (webhookUrl st) then
      ret (setNotice
             {| type := error;
                message :=
                  lit "No webhook URL set. Open Settings to add one." |} st')
    else
      now <- newDate ;;
      let payload :=
        Obj [ (lit "event", Str (lit "task_completed"));
              (lit "timestamp", Str (toISOString now));
              (lit "source", Str (lit "taskgen-local-app"));
              (lit "version", Num 1);
              (lit "task",
                Obj [ (lit "id", Str (id task));
                      (lit "name", Str (name task));
                      (lit "description", Str (description task));
                      (lit "timeframe", of_option (timeframe task));
                      (lit "completed", Bool true) ]);
              (lit "context", Str (context st)) ] in
      fetch {| url := webhookUrl st;
               method := lit "POST";
               headers := [ (lit "Content-Type", lit "application/json") ];
               body := JSON_stringify payload |} ;;
      ret st'
  else ret st'.
End Host.

(** The callback of [.then], an async function, as far as it has run.  It
    reads [res.ok] and then waits at [await res.text()]: as long as that
    promise is not settled nothing is set.  Once it is settled (a
    rejection is caught and leaves [bodyText] empty) the notice is set
    and, for a failure with a body, the warning is written. *)
Definition webhookThen (res : Response) (st : AppState) : M AppState :=
  let ok := ok res in
  match text res with
  | TextPending => ret st
  | settled =>
      let bodyText := match settled with TextRead b => b | _ => [] end in
      let st' :=
        setNotice
          {| type := if ok then success else error;
             message :=
               if ok then lit "Webhook sent successfully."
               else lit "Webhook failed: " ++ decimal (status res) ++ lit " "
                      ++ statusText res |} st in
      (if negb ok && negb (falsy bodyText)
       then console_log (Warn [lit "Webhook error body:"; bodyText])
       else ret tt) ;;
      ret st'
  end.

(** The callback of [.catch]: it runs when [fetch] rejects. *)
Definition webhookCatch (err : Rejection) (st : AppState) : M AppState :=
  console_log
    (Error (lit "Webhook error:"
              :: match err_message err with Some m => [m] | None => [] end)) ;;
  ret (setNotice
         {| type := error;
            message :=
              lit "Webhook error: "
                ++ or_else
                     (match err_message err with Some m => m | None => [] end)
                     (lit "Network error") |} st).

(** How the promise of one [fetch] settles. *)
Inductive Settled :=
| Fulfilled (res : Response)
| Rejected (err : Rejection).

(** [fetch(...).then(...).catch(...)]: a response runs the first
    callback, a rejection of [fetch] the second; the first cannot throw,
    so exactly one of the two runs. *)
Definition settle (o : Settled) (st : AppState) : M AppState :=
  match o with
  | Fulfilled res => webhookThen res st
  | Rejected err => webhookCatch err st
  end.

(** ** What the specification calls things *)

(** [kw] occurs in [s] as a substring. *)
Definition contains (kw s : jsstring) : Prop :=
  exists pre post, s = pre ++ kw ++ post.

(** [a] occurs in [s] and, later on the same line, [b]. *)
Definition phrase (a b s : jsstring) : Prop :=
  exists pre mid post,
    s = pre ++ a ++ mid ++ b ++ post /\ forallb isDot mid = true.

Definition exam_keywords : list jsstring :=
  map lit ["exam"; "study"; "college"; "test"; "syllabus"]%string.

Definition moving_keywords : list jsstring :=
  map lit ["move"; "relocat"; "apartment"; "pack"; "shifting"]%string.

Definition pc_keywords : list jsstring :=
  map lit ["pc"; "components"; "parts"]%string.

Definition travel_keywords : list jsstring :=
  map lit ["travel"; "trip"; "itinerary"; "flight"; "hotel"]%string.

Definition fitness_keywords : list jsstring :=
  map lit ["fitness"; "workout"; "diet"; "health"; "gym"]%string.

(** The keyword group of a domain matches the lower-cased text [lc]. *)
Definition mentions (d : Domain) (lc : jsstring) : Prop :=
  match d with
  | exam => exists kw, In kw exam_keywords /\ contains kw lc
  | moving => exists kw, In kw moving_keywords /\ contains kw lc
  | pc =>
      (exists kw, In kw pc_keywords /\ contains kw lc)
      \/ phrase (lit "build") (lit "computer") lc
      \/ phrase (lit "gaming") (lit "rig") lc
  | travel => exists kw, In kw travel_keywords /\ contains kw lc
  | fitness => exists kw, In kw fitness_keywords /\ contains kw lc
  | generic => False
  end.

(** The words a regular expression matches in full. *)
Fixpoint lang (r : regex) (w : jsstring) : Prop :=
  match r with
  | Chars l => w = l
  | Star p => forallb p w = true
  | Plus p => w <> [] /\ forallb p w = true
  | Seq r1 r2 => exists a b, w = a ++ b /\ lang r1 a /\ lang r2 b
  | Alt r1 r2 => lang r1 w \/ lang r2 w
  | Group r1 => lang r1 w
  end.

(** [s] starts with a request for a number of tasks: the digits [ds],
    optional white space, then the letters task. *)
Definition count_request (s ds : jsstring) : Prop :=
  exists ws rest,
    s = ds ++ ws ++ lit "task" ++ rest
    /\ ds <> [] /\ forallb isDigit ds = true /\ forallb isWhiteSpace ws = true.

(** The role names in their fixed order. *)
Definition role_names : list jsstring :=
  [ lit "Research essentials"; lit "Draft a plan"; lit "List resources & tools";
    lit "Execute first milestone"; lit "Review & next steps" ].

Definition role_order : list Role := [research; plan; resources; execute; review].

(** The captures do not decide whether the continuation [k] succeeds. *)
Definition caps_blind {R} (k : jsstring -> list jsstring -> option R) : Prop :=
  forall s a b, k s a <> None <-> k s b <> None.

(** No request starts before position [length pre] of [pre ++ suf]. *)
Definition none_before (pre suf : jsstring) : Prop :=
  forall p1 s1 ds,
    pre ++ suf = p1 ++ s1 -> length p1 < length pre -> ~ count_request s1 ds.

(** The time frame offset of a domain in [generateTasks]. *)
Definition offsetOf (d : Domain) : Z := if domain_eqb d generic then 1 else 0.

(** The task built for the [i]-th entry [b] of [base]. *)
Definition taskAt (d : Domain) (w : World) (i : nat) (b : Role * jsstring)
  : Task :=
  {| id := entropy w (i + uidCalls w);
     name := snd b;
     description := domainHints d (fst b);
     timeframe := pickTimeframe (Z.of_nat i + offsetOf d);
     completed := false |}.

Definition allTasks (d : Domain) (w : World) : list Task :=
  map (fun ib => taskAt d w (fst ib) (snd ib)) (combine (seq 0 5) base).

(** The task [t] with its check mark set. *)
Definition markComplete (t : Task) : Task :=
  mkTask (id t) (name t) (description t) (timeframe t) true.

(** ** The other handlers of [App] and the events that call them *)

(** [addTask]: one blank task at the end, its time frame picked by the
    length of the list before. *)
Definition addTask (st : AppState) : M AppState :=
  new_id <- uid ;;
  ret (setTasks
         (fun prev =>
            prev ++ [ {| id := new_id;
                         name := lit "New Task";
                         description := lit "Describe the task...";
                         timeframe := pickTimeframe (Z.of_nat (length prev));
                         completed := false |} ]) st).

(** [deleteTask(id)] *)
Definition deleteTask (id0 : jsstring) (st : AppState) : AppState :=
  setTasks (filter (fun t => negb (jsstring_eqb (id t) id0))) st.

(** [completedCount], the number shown in the header of the list. *)
Definition completedCount (st : AppState) : nat :=
  length (filter completed (tasks st)).

(** The object [editDraft]. *)
Record Draft := mkDraft {
  draftName : jsstring;
  draftDescription : jsstring;
  draftTimeframe : option jsstring
}.

(** The React state of the editor: [editingId] ([None] is null) and
    [editDraft]. *)
Record EditState := mkEdit {
  editingId : option jsstring;
  editDraft : Draft
}.

Definition emptyDraft : Draft := mkDraft [] [] (Some []).

Definition startEdit (task : Task) : EditState :=
  mkEdit (Some (id task))
    (mkDraft (name task) (description task) (timeframe task)).

Definition cancelEdit : EditState := mkEdit None emptyDraft.

(** [saveEdit(id)]: [{ ...t, ...editDraft }] on the tasks with that id,
    then [cancelEdit()]. *)
Definition saveEdit (id0 : jsstring) (st : AppState) (e : EditState)
  : AppState * EditState :=
  (setTasks
     (map (fun t =>
             if jsstring_eqb (id t) id0
             then {| id := id t;
                     name := draftName (editDraft e);
                     description := draftDescription (editDraft e);
                     timeframe := draftTimeframe (editDraft e);
                     completed := completed t |}
             else t)) st,
   cancelEdit).

(** The whole state of the component. *)
Record Ui := mkUi {
  uiApp : AppState;
  uiEdit : EditState
}.

(** The state of the first render: the tasks and the URL read from the
    store, an empty input, no notice, no row in the editor. *)
Definition initialUi (stored : list Task) (storedUrl : jsstring) : Ui :=
  mkUi (mkApp [] stored storedUrl None) cancelEdit.

(** [editingId === t.id]: the row of [t] shows the editor. *)
Definition inEditor (u : Ui) (t : Task) : bool :=
  match editingId (uiEdit u) with
  | Some e => jsstring_eqb e (id t)
  | None => false
  end.

(** What can happen to the rendered component.  A number [i] is the row
    of the list the widget belongs to. *)
Inductive Event :=
| TypeContext (s : jsstring)
| TypeWebhookUrl (s : jsstring)
| ClickGenerate
| ClickAddBlank
| ClickCheckbox (i : nat)
| ClickEdit (i : nat)
| ClickDelete (i : nat)
| TypeName (i : nat) (s : jsstring)
| TypeDescription (i : nat) (s : jsstring)
| TypeTimeframe (i : nat) (s : jsstring)
| ClickSave (i : nat)
| ClickCancel (i : nat)
| CloseNotice
| FetchSettled (o : Settled)
| ClockTick (t : Z).

Definition setClock (t : Z) : M unit :=
  fun w => (tt, mkWorld (entropy w) (uidCalls w) t (fetched w) (console w)).

Definition setEditDraft (f : Draft -> Draft) (u : Ui) : Ui :=
  mkUi (uiApp u) (mkEdit (editingId (uiEdit u)) (f (editDraft (uiEdit u)))).

(** A widget of row [i]: the editor of the row when [editor] is true, its
    display otherwise.  An event on a widget that is not rendered cannot
    happen; it leaves the state as it is. *)
Definition onRow (u : Ui) (i : nat) (editor : bool) (k : Task -> M Ui)
  : M Ui :=
  match nth_error (tasks (uiApp u)) i with
  | Some t => if Bool.eqb (inEditor u t) editor then k t else ret u
  | None => ret u
  end.

Section Events.
Variable toISOString : Z -> jsstring.

(** The handler the JSX binds to each widget.  A settlement is not
    matched with a request and the clock moves freely: what holds for
    these runs holds for the runs of the component. *)
Definition handle (e : Event) (u : Ui) : M Ui :=
  let a := uiApp u in
  match e with
  | TypeContext s =>
      ret (mkUi (mkApp s (tasks a) (webhookUrl a) (notice a)) (uiEdit u))
  | TypeWebhookUrl s =>
      ret (mkUi (mkApp (context a) (tasks a) s (notice a)) (uiEdit u))
  | ClickGenerate => a' <- addGenerated a ;; ret (mkUi a' (uiEdit u))
  | ClickAddBlank => a' <- addTask a ;; ret (mkUi a' (uiEdit u))
  | ClickCheckbox i =>
      match nth_error (tasks a) i with
      | Some t => a' <- toggleComplete toISOString t a ;; ret (mkUi a' (uiEdit u))
      | None => ret u
      end
  | ClickEdit i => onRow u i false (fun t => ret (mkUi a (startEdit t)))
  | ClickDelete i =>
      onRow u i false (fun t => ret (mkUi (deleteTask (id t) a) (uiEdit u)))
  | TypeName i s =>
      onRow u i true
        (fun _ =>
           ret (setEditDraft
                  (fun d => mkDraft s (draftDescription d) (draftTimeframe d))
                  u))
  | TypeDescription i s =>
      onRow u i true
        (fun _ =>
           ret (setEditDraft
                  (fun d => mkDraft (draftName d) s (draftTimeframe d)) u))
  | TypeTimeframe i s =>
      onRow u i true
        (fun _ =>
           ret (setEditDraft
                  (fun d => mkDraft (draftName d) (draftDescription d) (Some s))
                  u))
  | ClickSave i =>
      onRow u i true
        (fun t => let '(a', e') := saveEdit (id t) a (uiEdit u) in
                  ret (mkUi a' e'))
  | ClickCancel i => onRow u i true (fun _ => ret (mkUi a cancelEdit))
  | CloseNotice =>
      ret (mkUi (mkApp (context a) (tasks a) (webhookUrl a) None) (uiEdit u))
  | FetchSettled o => a' <- settle o a ;; ret (mkUi a' (uiEdit u))
  | ClockTick t => setClock t ;; ret u
  end.

Fixpoint run (es : list Event) (u : Ui) : M Ui :=
  match es with
  | [] => ret u
  | e :: es' => u' <- handle e u ;; run es' u'
  end.
End Events.

(** A word that neither starts nor ends with white space. *)
Definition solid (w : jsstring) : Prop :=
  exists c y c' y',
    w = c :: y /\ w = y' ++ [c']
    /\ isWhiteSpace c = false /\ isWhiteSpace c' = false.

Definition solidb (w : jsstring) : bool :=
  match w with
  | [] => false
  | c :: _ => negb (isWhiteSpace c) && negb (isWhiteSpace (last w 0%N))
  end.

(** Every task has a time frame, and so has the draft of the editor. *)
Definition timeframesDefined (u : Ui) : Prop :=
  Forall (fun t => timeframe t <> None) (tasks (uiApp u))
  /\ draftTimeframe (editDraft (uiEdit u)) <> None.

(** The ids of the list are pairwise different, and each is the id of a
    stored task or one that [uid] has already drawn. *)
Definition idsKnown (stored : list Task) (u : Ui) (w : World) : Prop :=
  NoDup (map id (tasks (uiApp u)))
  /\ forall t, In t (tasks (uiApp u)) ->
       In (id t) (map id stored)
       \/ exists k, k < uidCalls w /\ id t = entropy w k.

(** A request as the component sends it. *)
Definition wellFormed (rq : Request) : Prop :=
  url rq <> []
  /\ method rq = lit "POST"
  /\ headers rq = [ (lit "Content-Type", lit "application/json") ]
  /\ body rq <> None.

Definition isCheckbox (e : Event) : bool :=
  match e with ClickCheckbox _ => true | _ => false end.

(** ** Sample data for the concrete instances *)

Definition sampleISO (t : Z) : jsstring := lit "2026-01-01T00:00:00.000Z".

Definition sampleWorld : World :=
  mkWorld (fun n => lit "id" ++ decimal (N.of_nat n)) 0 0 [] [].

Definition sampleTask : Task :=
  mkTask (lit "id0") (lit "Research essentials")
    (lit "Clarify objectives and success criteria.")
    (Some (lit "30 minutes")) false.

Definition otherTask : Task :=
  mkTask (lit "id1") (lit "Draft a plan") (lit "Break work into milestones.")
    (Some (lit "1 hour")) true.

Definition sampleApp (url : jsstring) : AppState :=
  mkApp (lit "random babble") [sampleTask; otherTask] url None.

(** A stored list in which two rows have the same id. *)
Definition twinTaskA : Task :=
  mkTask (lit "x") (lit "A") (lit "first") (Some (lit "1 hour")) false.

Definition twinTaskM : Task :=
  mkTask (lit "y") (lit "M") (lit "middle") (Some (lit "1 day")) false.

Definition twinTaskB : Task :=
  mkTask (lit "x") (lit "B") (lit "last") (Some (lit "2 hours")) false.

Definition twinApp : AppState :=
  mkApp (lit "random babble") [twinTaskA; twinTaskM; twinTaskB] [] None.

(** A world whose [uid] draws a, aa, aaa, ... *)
Definition countingWorld : World :=
  mkWorld (fun n => repeat 97%N (S n)) 0 0 [] [].

Definition storedTask : Task :=
  mkTask (lit "x") (lit "New Task") (lit "Describe the task...")
    (Some (lit "15 minutes")) false.

(** * Proofs *)

(** ** Concrete runs of the model *)

Example inferDomain_parts : inferDomain (lit "A PARTS-time job") = pc.
Proof. reflexivity. Qed.

Example inferDomain_same_line :
  inferDomain (lit "build me a computer") = pc
  /\ inferDomain (lit "build me a" ++ [10%N] ++ lit "computer") = generic.
Proof. split; reflexivity. Qed.

Example inferDomain_kelvin : inferDomain (lit "pac" ++ [8490%N]) = moving.
Proof. reflexivity. Qed.

Example String_match_leftmost :
  String_match (lit "a1b 23  tasks 4 task") re_count
  = Some [lit "23  task"; lit "23"].
Proof. reflexivity. Qed.

Example parseInt10_runs :
  parseInt10 (lit " 007") = Some 7%Z
  /\ parseInt10 (lit "-12px") = Some (-12)%Z
  /\ parseInt10 (lit "task") = None.
Proof. repeat split. Qed.

Example trim_runs : trim (lit "  4 tasks  ") = lit "4 tasks".
Proof. reflexivity. Qed.

Example pickTimeframe_negative :
  pickTimeframe (-1) = None /\ pickTimeframe (-7) = Some (lit "15 minutes").
Proof. split; reflexivity. Qed.

Example generateTasks_uid_calls :
  uidCalls (snd (generateTasks (lit "gym, 3 tasks") sampleWorld)) = 5
  /\ map id (fst (generateTasks (lit "gym, 3 tasks") sampleWorld))
     = [lit "id0"; lit "id1"; lit "id2"].
Proof. split; reflexivity. Qed.

(** ** Lists of code units *)

Lemma stripPrefix_Some p s s' : stripPrefix p s = Some s' <-> s = p ++ s'.
Proof.
  revert s; induction p as [|a p IH]; intros [|b s]; simpl.
  - split; congruence.
  - split; congruence.
  - split; [discriminate | intros H; discriminate H].
  - destruct (N.eqb_spec a b) as [->|Hne].
    + rewrite IH. split; congruence.
    + split; [discriminate | intros H; injection H; intros; congruence].
Qed.

Lemma stripPrefix_app p s : stripPrefix p (p ++ s) = Some s.
Proof. apply stripPrefix_Some; reflexivity. Qed.

Lemma takeWhile_dropWhile p s : takeWhile p s ++ dropWhile p s = s.
Proof.
  induction s as [|c s IH]; simpl; [reflexivity|].
  destruct (p c); simpl; [now rewrite IH | reflexivity].
Qed.

Lemma takeWhile_all p s : forallb p (takeWhile p s) = true.
Proof.
  induction s as [|c s IH]; simpl; [reflexivity|].
  destruct (p c) eqn:E; simpl; [now rewrite E | reflexivity].
Qed.

Lemma takeWhile_app p a b :
  forallb p a = true ->
  takeWhile p (a ++ b) = a ++ takeWhile p b.
Proof.
  induction a as [|c a IH]; simpl; [reflexivity|].
  intros H. apply andb_prop in H as [Hc Ha]. rewrite Hc, IH; auto.
Qed.

Lemma dropWhile_app p a b :
  forallb p a = true ->
  dropWhile p (a ++ b) = dropWhile p b.
Proof.
  induction a as [|c a IH]; simpl; [reflexivity|].
  intros H. apply andb_prop in H as [Hc Ha]. rewrite Hc, IH; auto.
Qed.

Lemma dropWhile_all p s : forallb p s = true -> dropWhile p s = [].
Proof.
  intros H. rewrite <- (app_nil_r s), dropWhile_app by assumption. reflexivity.
Qed.

Lemma firstn_before_suffix (a b : jsstring) :
  firstn (length (a ++ b) - length b) (a ++ b) = a.
Proof.
  rewrite length_app, Nat.add_sub.
  rewrite firstn_app, Nat.sub_diag, firstn_all. simpl. apply app_nil_r.
Qed.

Lemma contains_forallb p kw s :
  contains kw s -> forallb p s = true -> forallb p kw = true.
Proof.
  intros (pre & post & ->). rewrite !forallb_app.
  intros H. apply andb_prop in H as [_ H]. now apply andb_prop in H as [H _].
Qed.

(** ** The matcher and the language of a pattern *)

Section MatcherFacts.
Variable R : Type.
Implicit Types (k : jsstring -> list jsstring -> option R).

Lemma star_succeeds p s (k : jsstring -> option R) :
  star p s k <> None <->
  exists w s', s = w ++ s' /\ forallb p w = true /\ k s' <> None.
Proof.
  induction s as [|c s IH]; simpl.
  - split.
    + intros H. exists [], []. auto.
    + intros (w & s' & E & _ & H). symmetry in E.
      apply app_eq_nil in E as [-> ->]. exact H.
  - destruct (p c) eqn:Hc.
    + destruct (star p s k) eqn:Hs.
      * split; [intros _ | discriminate].
        destruct (proj1 IH) as (w & s' & -> & Hw & Hk); [discriminate|].
        exists (c :: w), s'. simpl. rewrite Hc. auto.
      * split.
        -- intros H. exists [], (c :: s). auto.
        -- intros (w & s' & E & Hw & Hk). destruct w as [|c' w]; simpl in E.
           ++ now subst s'.
           ++ injection E as -> ->. simpl in Hw.
              apply andb_prop in Hw as [_ Hw].
              exfalso. apply (proj2 IH); [|reflexivity].
              exists w, s'. auto.
    + split.
      * intros H. exists [], (c :: s). auto.
      * intros (w & s' & E & Hw & Hk). destruct w as [|c' w]; simpl in E.
        -- now subst s'.
        -- injection E as -> ->. simpl in Hw. rewrite Hc in Hw. discriminate.
Qed.

(** When the continuation refuses every input that still starts with a
    character of the class, the iteration takes the whole run. *)
Lemma star_greedy p s (k : jsstring -> option R) :
  (forall c s', p c = true -> k (c :: s') = None) ->
  star p s k = k (dropWhile p s).
Proof.
  intros Hk. induction s as [|c s IH]; simpl; [reflexivity|].
  destruct (p c) eqn:Hc; [|reflexivity].
  rewrite IH. destruct (k (dropWhile p s)); [reflexivity|]. now apply Hk.
Qed.

Lemma matcher_succeeds r : forall s caps k,
  caps_blind k ->
  (matcher r s caps k <> None <->
   exists w s', s = w ++ s' /\ lang r w /\ k s' [] <> None).
Proof.
  induction r as [l|p|p|r1 IH1 r2 IH2|r1 IH1 r2 IH2|r1 IH1];
    intros s caps k Hk; simpl.
  - destruct (stripPrefix l s) as [s'|] eqn:E.
    + apply stripPrefix_Some in E as ->. rewrite (Hk s' caps []). split.
      * intros H. exists l, s'. auto.
      * intros (w & s2 & E & -> & H). apply app_inv_head in E as ->. exact H.
    + split; [congruence|]. intros (w & s2 & -> & -> & _).
      rewrite stripPrefix_app in E. discriminate.
  - rewrite star_succeeds. split; intros (w & s' & E & Hw & H);
      exists w, s'; repeat split; auto; now apply (Hk s' caps []).
  - destruct s as [|c s].
    + split; [congruence|]. intros (w & s' & E & [Hne _] & _).
      symmetry in E. apply app_eq_nil in E as [-> _]. congruence.
    + destruct (p c) eqn:Hc.
      * rewrite star_succeeds. split.
        -- intros (w & s' & -> & Hw & H). exists (c :: w), s'.
           simpl. rewrite Hc. repeat split; auto; [discriminate|].
           now apply (Hk s' caps []).
        -- intros (w & s' & E & [Hne Hw] & H). destruct w as [|c' w];
             [congruence|]. simpl in E. injection E as -> ->.
           simpl in Hw. apply andb_prop in Hw as [_ Hw].
           exists w, s'. repeat split; auto. now apply (Hk s' caps []).
      * split; [congruence|]. intros (w & s' & E & [Hne Hw] & _).
        destruct w as [|c' w]; [congruence|]. simpl in E.
        injection E as -> ->. simpl in Hw. rewrite Hc in Hw. discriminate.
  - assert (Hk2 : caps_blind (fun s' caps' => matcher r2 s' caps' k)).
    { intros s' a b. rewrite (IH2 s' a k Hk), (IH2 s' b k Hk). tauto. }
    rewrite (IH1 _ _ _ Hk2). split.
    + intros (w1 & s1 & -> & H1 & H2).
      apply (IH2 _ _ _ Hk) in H2 as (w2 & s2 & -> & H2 & H).
      exists (w1 ++ w2), s2. rewrite <- app_assoc. repeat split; auto.
      exists w1, w2. auto.
    + intros (w & s' & -> & (w1 & w2 & -> & H1 & H2) & H).
      exists w1, (w2 ++ s'). rewrite <- app_assoc. repeat split; auto.
      apply (IH2 _ _ _ Hk). exists w2, s'. auto.
  - destruct (matcher r1 s caps k) eqn:E1.
    + split; [intros _ | congruence].
      assert (Hn : matcher r1 s caps k <> None) by congruence.
      apply (IH1 _ _ _ Hk) in Hn as (w & s' & -> & H1 & H).
      exists w, s'. auto.
    + rewrite (IH2 _ _ _ Hk). split.
      * intros (w & s' & -> & H2 & H). exists w, s'. auto.
      * intros (w & s' & -> & [H1|H2] & H).
        -- exfalso. apply (proj2 (IH1 (w ++ s') caps _ Hk)); [|exact E1].
           exists w, s'. auto.
        -- exists w, s'. auto.
  - pose (k' := fun s' caps' =>
                  k s' (caps' ++ [firstn (length s - length s') s])).
    assert (Hk' : caps_blind k').
    { intros s' a b. unfold k'. apply Hk. }
    change (matcher r1 s caps k' <> None <->
            exists w s', s = w ++ s' /\ lang r1 w /\ k s' [] <> None).
    rewrite (IH1 _ _ _ Hk'). unfold k'.
    split; intros (w & s' & E & Hw & H); exists w, s'; repeat split; auto;
      revert H; apply Hk.
Qed.
End MatcherFacts.

Lemma matchAt_succeeds r s :
  matchAt r s <> None <-> exists w s', s = w ++ s' /\ lang r w.
Proof.
  unfold matchAt. rewrite matcher_succeeds.
  - split; intros (w & s' & E & H); exists w, s'; intuition congruence.
  - intros s' a b. split; congruence.
Qed.

Lemma exec_succeeds r s :
  exec r s <> None <->
  exists pre w post, s = pre ++ w ++ post /\ lang r w.
Proof.
  induction s as [|c s IH]; simpl.
  - destruct (matchAt r []) eqn:E.
    + split; [intros _ | congruence].
      assert (Hn : matchAt r [] <> None) by congruence.
      apply matchAt_succeeds in Hn as (w & s' & -> & H). exists [], w, s'. auto.
    + split; [congruence|]. intros (pre & w & post & Es & H).
      symmetry in Es. apply app_eq_nil in Es as [-> Es].
      apply app_eq_nil in Es as [-> ->].
      exfalso. apply (proj2 (matchAt_succeeds r [])); [|exact E].
      exists [], []. auto.
  - destruct (matchAt r (c :: s)) eqn:E.
    + split; [intros _ | congruence].
      assert (Hn : matchAt r (c :: s) <> None) by congruence.
      apply matchAt_succeeds in Hn as (w & s' & -> & H). exists [], w, s'. auto.
    + rewrite IH. split.
      * intros (pre & w & post & -> & H). exists (c :: pre), w, post. auto.
      * intros (pre & w & post & Es & H). destruct pre as [|c' pre].
        -- exfalso. apply (proj2 (matchAt_succeeds r (c :: s))); [|exact E].
           exists w, post. auto.
        -- simpl in Es. injection Es as -> ->. exists pre, w, post. auto.
Qed.

Lemma test_true r s :
  test r s = true <-> exists pre w post, s = pre ++ w ++ post /\ lang r w.
Proof.
  rewrite <- exec_succeeds. unfold test.
  destruct (exec r s); split; congruence.
Qed.

(** ** Character classes *)

Ltac split_tests :=
  repeat match goal with
    | H : _ && _ = true |- _ => apply andb_prop in H as [? ?]
    | H : (_ <=? _)%N = true |- _ => apply N.leb_le in H
    | H : (_ =? _)%N = true |- _ => apply N.eqb_eq in H
    end.

Ltac decide_tests :=
  repeat (match goal with
          | |- context [(?a <=? ?b)%N] => destruct (N.leb_spec a b)
          | |- context [(?a =? ?b)%N] => destruct (N.eqb_spec a b)
          end; try lia; simpl);
  try reflexivity; try discriminate; try lia.

Lemma digit_not_space c : isDigit c = true -> isWhiteSpace c = false.
Proof.
  unfold isDigit, isWhiteSpace, in_range. intros H. split_tests.
  simpl. decide_tests.
Qed.

Lemma digit_not_t c : isDigit c = true -> (116 =? c)%N = false.
Proof.
  unfold isDigit, in_range. intros H. split_tests. decide_tests.
Qed.

Lemma space_not_t c : isWhiteSpace c = true -> (116 =? c)%N = false.
Proof.
  intros H. destruct (N.eqb_spec 116 c) as [<-|]; [discriminate H | reflexivity].
Qed.

Lemma lowerUnit_space c : isWhiteSpace c = true -> lowerUnit c = [c].
Proof.
  intros H. unfold lowerUnit, in_range.
  destruct (N.leb_spec 65 c); simpl; [|decide_tests; subst; discriminate H].
  destruct (N.leb_spec c 90); simpl.
  - exfalso. revert H. unfold isWhiteSpace, in_range. simpl. decide_tests.
  - decide_tests; subst; discriminate H.
Qed.

Lemma toLowerCase_space s :
  forallb isWhiteSpace s = true -> toLowerCase s = s.
Proof.
  induction s as [|c s IH]; simpl; [reflexivity|].
  intros H. apply andb_prop in H as [Hc Hs].
  rewrite (lowerUnit_space _ Hc), (IH Hs). reflexivity.
Qed.

Lemma toLowerCase_app a b :
  toLowerCase (a ++ b) = toLowerCase a ++ toLowerCase b.
Proof. apply flat_map_app. Qed.

Lemma toLowerCase_contains kw s :
  contains kw s -> contains (toLowerCase kw) (toLowerCase s).
Proof.
  intros (pre & post & ->). exists (toLowerCase pre), (toLowerCase post).
  now rewrite !toLowerCase_app.
Qed.

(** ** The classifier *)

Arguments lit : simpl never.

Ltac keyword_cases :=
  repeat match goal with
    | H : _ \/ _ |- _ => destruct H as [H|H]
    | H : False |- _ => destruct H
    | H : exists _, _ |- _ => destruct H as [? H]
    | H : _ /\ _ |- _ => destruct H
    end.

Lemma test_keywords r kws lc :
  (forall w, lang r w <-> In w kws) ->
  test r lc = true <-> exists kw, In kw kws /\ contains kw lc.
Proof.
  intros Hr. rewrite test_true. split.
  - intros (pre & w & post & -> & H). exists w. split; [now apply Hr|].
    exists pre, post. reflexivity.
  - intros (kw & Hin & pre & post & ->). exists pre, kw, post.
    split; [reflexivity | now apply Hr].
Qed.

Ltac keywords_lang :=
  intros w; simpl; split; intros H; keyword_cases; subst; auto 10.

Lemma test_exam lc : test re_exam lc = true <-> mentions exam lc.
Proof. apply test_keywords. keywords_lang. Qed.

Lemma test_moving lc : test re_moving lc = true <-> mentions moving lc.
Proof. apply test_keywords. keywords_lang. Qed.

Lemma test_travel lc : test re_travel lc = true <-> mentions travel lc.
Proof. apply test_keywords. keywords_lang. Qed.

Lemma test_fitness lc : test re_fitness lc = true <-> mentions fitness lc.
Proof. apply test_keywords. keywords_lang. Qed.

Lemma test_pc lc : test re_pc lc = true <-> mentions pc lc.
Proof.
  rewrite test_true. unfold mentions, phrase, contains. split.
  - intros (pre & w & post & -> & H). simpl in H.
    destruct H as [H|[H|[H|[H|H]]]].
    + left. exists w. subst w. split; [simpl; auto|]. now exists pre, post.
    + right; left. destruct H as (a & b & -> & -> & mid & c & -> & Hm & ->).
      exists pre, mid, post. now rewrite <- !app_assoc.
    + right; right. destruct H as (a & b & -> & -> & mid & c & -> & Hm & ->).
      exists pre, mid, post. now rewrite <- !app_assoc.
    + left. exists w. subst w. split; [simpl; auto|]. now exists pre, post.
    + left. exists w. subst w. split; [simpl; auto|]. now exists pre, post.
  - intros [(kw & Hin & pre & post & ->)|[H|H]].
    + exists pre, kw, post. split; [reflexivity|]. simpl in Hin |- *.
      keyword_cases; subst; auto.
    + destruct H as (pre & mid & post & -> & Hm).
      exists pre, (lit "build" ++ mid ++ lit "computer"), post.
      split; [now rewrite <- !app_assoc|]. simpl. right; left.
      exists (lit "build"), (mid ++ lit "computer"). repeat split.
      exists mid, (lit "computer"). auto.
    + destruct H as (pre & mid & post & -> & Hm).
      exists pre, (lit "gaming" ++ mid ++ lit "rig"), post.
      split; [now rewrite <- !app_assoc|]. simpl. right; right; left.
      exists (lit "gaming"), (mid ++ lit "rig"). repeat split.
      exists mid, (lit "rig"). auto.
Qed.

Lemma test_false r lc P :
  (test r lc = true <-> P) -> test r lc = false <-> ~ P.
Proof.
  intros H. destruct (test r lc); split; intros; try congruence.
  - exfalso. tauto.
  - intros HP. apply H in HP. discriminate.
Qed.

Lemma space_mentions_nothing d lc :
  forallb isWhiteSpace lc = true -> ~ mentions d lc.
Proof.
  intros Hs Hm.
  assert (Hkw : forall kw, contains kw lc ->
                           forallb isWhiteSpace kw = false -> False).
  { intros kw Hc Hf. rewrite (contains_forallb _ Hc Hs) in Hf. discriminate. }
  assert (Hph : forall a b, phrase a b lc ->
                            forallb isWhiteSpace a = false -> False).
  { intros a b (pre & mid & post & -> & _) Hf. apply (Hkw a); [|exact Hf].
    exists pre, (mid ++ b ++ post). reflexivity. }
  destruct d; simpl in Hm; keyword_cases;
    try (match goal with Hc : contains _ lc |- _ => apply (Hkw _ Hc) end;
         subst; reflexivity);
    try (match goal with Hc : phrase _ _ lc |- _ => apply (Hph _ _ Hc) end;
         reflexivity).
Qed.

(** C2.  [inferDomain] lower-cases its input and tries the keyword groups
    in the order exam, moving, pc, travel, fitness: the domain is the first
    group that occurs in the lower-cased text (as a substring, or as one of
    the two phrases of the pc group), and generic when none does.  So an
    input with an exam keyword and a travel keyword, in any letter case, is
    exam, and an input of white space only (the empty one too) is
    generic. *)
Theorem inferDomain_priority (ctx : jsstring) :
  let lc := toLowerCase ctx in
  (inferDomain ctx = exam <-> mentions exam lc)
  /\ (inferDomain ctx = moving <->
      ~ mentions exam lc /\ mentions moving lc)
  /\ (inferDomain ctx = pc <->
      ~ mentions exam lc /\ ~ mentions moving lc /\ mentions pc lc)
  /\ (inferDomain ctx = travel <->
      ~ mentions exam lc /\ ~ mentions moving lc /\ ~ mentions pc lc
      /\ mentions travel lc)
  /\ (inferDomain ctx = fitness <->
      ~ mentions exam lc /\ ~ mentions moving lc /\ ~ mentions pc lc
      /\ ~ mentions travel lc /\ mentions fitness lc)
  /\ (inferDomain ctx = generic <-> forall d, ~ mentions d lc)
  /\ (forall k1 k2,
        In (toLowerCase k1) exam_keywords ->
        In (toLowerCase k2) travel_keywords ->
        contains k1 ctx -> contains k2 ctx -> inferDomain ctx = exam)
  /\ (forallb isWhiteSpace ctx = true -> inferDomain ctx = generic).
Proof.
  intros lc.
  assert (He := test_exam lc). assert (Hm := test_moving lc).
  assert (Hp := test_pc lc). assert (Ht := test_travel lc).
  assert (Hf := test_fitness lc).
  assert (Hcase :
    (inferDomain ctx = exam /\ mentions exam lc)
    \/ (inferDomain ctx = moving /\ ~ mentions exam lc /\ mentions moving lc)
    \/ (inferDomain ctx = pc /\ ~ mentions exam lc /\ ~ mentions moving lc
        /\ mentions pc lc)
    \/ (inferDomain ctx = travel /\ ~ mentions exam lc /\ ~ mentions moving lc
        /\ ~ mentions pc lc /\ mentions travel lc)
    \/ (inferDomain ctx = fitness /\ ~ mentions exam lc
        /\ ~ mentions moving lc /\ ~ mentions pc lc /\ ~ mentions travel lc
        /\ mentions fitness lc)
    \/ (inferDomain ctx = generic /\ ~ mentions exam lc
        /\ ~ mentions moving lc /\ ~ mentions pc lc /\ ~ mentions travel lc
        /\ ~ mentions fitness lc)).
  { unfold inferDomain. fold lc.
    apply test_false in He as He', Hm as Hm', Hp as Hp', Ht as Ht', Hf as Hf'.
    destruct (test re_exam lc); [left; tauto|].
    destruct (test re_moving lc); [right; left; tauto|].
    destruct (test re_pc lc); [right; right; left; tauto|].
    destruct (test re_travel lc); [right; right; right; left; tauto|].
    destruct (test re_fitness lc); [right; right; right; right; left; tauto|].
    right; right; right; right; right. tauto. }
  assert (Hexam : inferDomain ctx = exam <-> mentions exam lc).
  { destruct Hcase as [H|[H|[H|[H|[H|H]]]]]; destruct H as [-> H];
      split; intros; try discriminate; tauto. }
  repeat split; try (destruct Hcase as [H'|[H'|[H'|[H'|[H'|H']]]]];
                     destruct H' as [E H']; rewrite E in *; intros;
                     try discriminate; tauto).
  - intros Hg d. destruct Hcase as [H'|[H'|[H'|[H'|[H'|H']]]]];
      destruct H' as [E H']; rewrite E in Hg; try discriminate.
    destruct d; simpl; try tauto; apply H'.
  - intros Hnone. destruct Hcase as [H'|[H'|[H'|[H'|[H'|H']]]]];
      destruct H' as [E H']; try exact E; exfalso.
    + apply (Hnone exam), H'.
    + apply (Hnone moving), H'.
    + apply (Hnone pc), H'.
    + apply (Hnone travel), H'.
    + apply (Hnone fitness), H'.
  - intros k1 k2 H1 _ Hc1 _. apply Hexam. exists (toLowerCase k1).
    split; [exact H1 | now apply toLowerCase_contains].
  - intros Hs.
    assert (Hlc : forallb isWhiteSpace lc = true).
    { unfold lc. now rewrite toLowerCase_space. }
    destruct Hcase as [H'|[H'|[H'|[H'|[H'|H']]]]];
      destruct H' as [E H']; try exact E; exfalso.
    + apply (@space_mentions_nothing exam lc Hlc), H'.
    + apply (@space_mentions_nothing moving lc Hlc), H'.
    + apply (@space_mentions_nothing pc lc Hlc), H'.
    + apply (@space_mentions_nothing travel lc Hlc), H'.
    + apply (@space_mentions_nothing fitness lc Hlc), H'.
Qed.

(** ** The requested number of tasks *)

Lemma stripPrefix_task_head c s :
  (116 =? c)%N = false -> stripPrefix (lit "task") (c :: s) = None.
Proof.
  intros H.
  change (stripPrefix (lit "task") (c :: s))
    with (if (116 =? c)%N then stripPrefix (lit "ask") s else None).
  now rewrite H.
Qed.

Lemma run_before_task p ws rest :
  p 116%N = false ->
  forallb p ws = true ->
  takeWhile p (ws ++ lit "task" ++ rest) = ws
  /\ dropWhile p (ws ++ lit "task" ++ rest) = lit "task" ++ rest.
Proof.
  intros Ht Hws. rewrite takeWhile_app, dropWhile_app by assumption.
  change (lit "task" ++ rest) with (116%N :: lit "ask" ++ rest).
  cbn [takeWhile dropWhile]. rewrite Ht. now rewrite app_nil_r.
Qed.

Lemma matchAt_count s :
  matchAt re_count s =
  match takeWhile isDigit s with
  | [] => None
  | ds =>
      match stripPrefix (lit "task")
              (dropWhile isWhiteSpace (dropWhile isDigit s)) with
      | Some rest => Some [firstn (length s - length rest) s; ds]
      | None => None
      end
  end.
Proof.
  unfold matchAt, re_count. cbn [matcher].
  destruct s as [|c s]; [reflexivity|].
  cbn [takeWhile dropWhile]. destruct (isDigit c) eqn:Hc; [|reflexivity].
  rewrite star_greedy.
  - rewrite star_greedy.
    + destruct (stripPrefix _ _) as [rest|]; [|reflexivity].
      do 3 f_equal. cbn [app].
      rewrite <- (takeWhile_dropWhile isDigit s) at 1 3.
      change (c :: takeWhile isDigit s ++ dropWhile isDigit s)
        with ((c :: takeWhile isDigit s) ++ dropWhile isDigit s).
      f_equal. apply firstn_before_suffix.
    + intros c' s' Hs. now rewrite stripPrefix_task_head by now apply space_not_t.
  - intros c' s' Hd. cbn [star]. rewrite (digit_not_space _ Hd).
    now rewrite stripPrefix_task_head by now apply digit_not_t.
Qed.

Lemma digit_head_not_space ds :
  ds <> [] -> forallb isDigit ds = true -> dropWhile isWhiteSpace ds = ds.
Proof.
  destruct ds as [|c ds]; [congruence|]. simpl. intros _ H.
  apply andb_prop in H as [Hc _]. now rewrite (digit_not_space _ Hc).
Qed.

Lemma count_request_split ds ws rest :
  forallb isDigit ds = true -> forallb isWhiteSpace ws = true ->
  let s := ds ++ ws ++ lit "task" ++ rest in
  takeWhile isDigit s = ds
  /\ dropWhile isWhiteSpace (dropWhile isDigit s) = lit "task" ++ rest.
Proof.
  intros Hd Hw s. unfold s.
  assert (Hhead : takeWhile isDigit (ws ++ lit "task" ++ rest) = []
                  /\ dropWhile isDigit (ws ++ lit "task" ++ rest)
                     = ws ++ lit "task" ++ rest).
  { destruct ws as [|c ws]; [split; reflexivity|]. simpl in Hw |- *.
    apply andb_prop in Hw as [Hc _].
    destruct (isDigit c) eqn:Hdc; [|split; reflexivity].
    rewrite (digit_not_space _ Hdc) in Hc. discriminate. }
  destruct Hhead as [Ht Hdr].
  rewrite takeWhile_app, dropWhile_app, Ht, Hdr, app_nil_r by assumption.
  split; [reflexivity|].
  apply (run_before_task isWhiteSpace ws rest); auto.
Qed.

Lemma count_request_matchAt s ds :
  count_request s ds -> exists whole, matchAt re_count s = Some [whole; ds].
Proof.
  intros (ws & rest & -> & Hne & Hd & Hw). rewrite matchAt_count.
  destruct (count_request_split ds ws rest Hd Hw) as [-> ->].
  rewrite stripPrefix_app. destruct ds; [congruence|]. eauto.
Qed.

Lemma matchAt_count_request s m :
  matchAt re_count s = Some m ->
  exists whole ds, m = [whole; ds] /\ count_request s ds.
Proof.
  rewrite matchAt_count. destruct (takeWhile isDigit s) as [|c ds] eqn:Ht;
    [discriminate|].
  destruct (stripPrefix _ _) as [rest|] eqn:Hs; [|discriminate].
  intros [= <-]. eexists _, _. split; [reflexivity|].
  apply stripPrefix_Some in Hs.
  exists (takeWhile isWhiteSpace (dropWhile isDigit s)), rest.
  repeat split.
  - rewrite <- (takeWhile_dropWhile isDigit s) at 1. rewrite Ht. f_equal.
    rewrite <- Hs. symmetry. apply takeWhile_dropWhile.
  - discriminate.
  - rewrite <- Ht. apply takeWhile_all.
  - apply takeWhile_all.
Qed.

Lemma exec_here r s m : matchAt r s = Some m -> exec r s = Some m.
Proof. intros H. destruct s; simpl; now rewrite H. Qed.

Lemma exec_later r c s : matchAt r (c :: s) = None -> exec r (c :: s) = exec r s.
Proof. intros H. simpl. now rewrite H. Qed.

Lemma exec_Some r s m :
  exec r s = Some m -> exists pre suf, s = pre ++ suf /\ matchAt r suf = Some m.
Proof.
  induction s as [|c s IH]; simpl.
  - destruct (matchAt r []) eqn:E; [|discriminate].
    intros [= <-]. exists [], []. auto.
  - destruct (matchAt r (c :: s)) eqn:E.
    + intros [= <-]. exists [], (c :: s). auto.
    + intros H. apply IH in H as (pre & suf & -> & H).
      exists (c :: pre), suf. auto.
Qed.

Lemma exec_first_request pre suf ds :
  count_request suf ds -> none_before pre suf ->
  exists whole, exec re_count (pre ++ suf) = Some [whole; ds].
Proof.
  intros Hreq. induction pre as [|c pre IH]; intros Hnone.
  - destruct (count_request_matchAt Hreq) as [whole H].
    exists whole. now apply exec_here.
  - simpl app. rewrite exec_later.
    + apply IH. intros p1 s1 d E Hlen. apply (Hnone (c :: p1) s1 d).
      * simpl. now rewrite E.
      * simpl. lia.
    + destruct (matchAt re_count (c :: pre ++ suf)) as [m|] eqn:E;
        [|reflexivity].
      apply matchAt_count_request in E as (whole & d & _ & Hd).
      exfalso. apply (Hnone [] (c :: pre ++ suf) d); simpl; auto; lia.
Qed.

Lemma exec_no_request s :
  (forall p1 s1 ds, s = p1 ++ s1 -> ~ count_request s1 ds) ->
  exec re_count s = None.
Proof.
  intros Hnone. destruct (exec re_count s) as [m|] eqn:E; [|reflexivity].
  apply exec_Some in E as (pre & suf & -> & E).
  apply matchAt_count_request in E as (whole & d & _ & Hd).
  exfalso. now apply (Hnone pre suf d).
Qed.

Lemma parseInt10_digits ds :
  ds <> [] -> forallb isDigit ds = true ->
  parseInt10 ds = Some (digitsValue ds).
Proof.
  intros Hne Hd. unfold parseInt10. rewrite (digit_head_not_space Hne Hd).
  destruct ds as [|c ds]; [congruence|].
  assert (Hc : isDigit c = true) by (simpl in Hd; now apply andb_prop in Hd).
  assert (H45 : (c =? 45)%N = false /\ (c =? 43)%N = false).
  { revert Hc. unfold isDigit, in_range. intros Hc. split_tests.
    split; apply N.eqb_neq; lia. }
  destruct H45 as [-> ->].
  rewrite <- (app_nil_r (c :: ds)) at 1.
  rewrite takeWhile_app by assumption. simpl takeWhile. rewrite app_nil_r.
  f_equal. lia.
Qed.

Lemma or_else_empty s : or_else s [] = s.
Proof. now destruct s. Qed.

Lemma desired_request pre suf ds ts :
  count_request suf ds -> none_before pre suf ->
  desired (pre ++ suf) ts = Some (Z.min 5 (Z.max 3 (digitsValue ds))).
Proof.
  intros Hreq Hnone. unfold desired, String_match. rewrite or_else_empty.
  destruct (exec_first_request Hreq Hnone) as [whole ->]. cbn [nth].
  destruct Hreq as (ws & rest & _ & Hne & Hd & _).
  now rewrite parseInt10_digits.
Qed.

Lemma desired_no_request s ts :
  (forall p1 s1 ds, s = p1 ++ s1 -> ~ count_request s1 ds) ->
  desired s ts = Some (Z.of_nat (length ts)).
Proof.
  intros H. unfold desired, String_match. rewrite or_else_empty.
  now rewrite exec_no_request.
Qed.

Lemma desired_range s ts :
  length ts = 5 -> exists n, desired s ts = Some n /\ (3 <= n <= 5)%Z.
Proof.
  intros Hlen. unfold desired, String_match. rewrite or_else_empty.
  destruct (exec re_count s) as [m|] eqn:E.
  - apply exec_Some in E as (pre & suf & _ & E).
    apply matchAt_count_request in E as (whole & ds & -> & Hreq).
    destruct Hreq as (ws & rest & _ & Hne & Hd & _). cbn [nth].
    rewrite parseInt10_digits by assumption. simpl.
    eexists; split; [reflexivity | lia].
  - rewrite Hlen. exists 5%Z. split; [reflexivity | lia].
Qed.

(** ** The synthesizer *)

Lemma generateTasks_eq ctx w :
  generateTasks ctx w =
  (slice0 (allTasks (inferDomain ctx) w)
     (desired ctx (allTasks (inferDomain ctx) w)),
   mkWorld (entropy w) (5 + uidCalls w) (clock w) (fetched w) (console w)).
Proof.
  unfold generateTasks. rewrite or_else_empty.
  set (d := inferDomain ctx). reflexivity.
Qed.

Lemma allTasks_length d w : length (allTasks d w) = 5.
Proof. reflexivity. Qed.

Lemma generateTasks_firstn ctx w :
  exists n, desired ctx (allTasks (inferDomain ctx) w) = Some (Z.of_nat n)
            /\ 3 <= n <= 5
            /\ fst (generateTasks ctx w)
               = firstn n (allTasks (inferDomain ctx) w).
Proof.
  rewrite generateTasks_eq. cbn [fst].
  destruct (@desired_range ctx _ (allTasks_length (inferDomain ctx) w))
    as (n & -> & Hn).
  exists (Z.to_nat n). rewrite Z2Nat.id by lia. repeat split; try lia.
  unfold slice0. destruct (Z.ltb_spec n 0); [lia | reflexivity].
Qed.

Lemma desired_length_only s ts ts' :
  length ts = length ts' -> desired s ts = desired s ts'.
Proof. intros H. unfold desired. now rewrite H. Qed.

(** A prefix without digits holds no request. *)
Lemma none_before_no_digit pre suf :
  forallb (fun c => negb (isDigit c)) pre = true -> none_before pre suf.
Proof.
  intros Hpre p1 s1 ds E Hlen (ws & rest & -> & Hne & Hd & _).
  destruct ds as [|c ds]; [congruence|].
  assert (Hin : In c pre).
  { assert (Hn : nth_error (pre ++ suf) (length p1) = Some c).
    { rewrite E, nth_error_app2, Nat.sub_diag by lia. reflexivity. }
    rewrite nth_error_app1 in Hn by lia. now apply nth_error_In in Hn. }
  rewrite forallb_forall in Hpre. apply Hpre in Hin.
  simpl in Hd. apply andb_prop in Hd as [Hc _]. rewrite Hc in Hin.
  discriminate.
Qed.

(** C1.  Whatever the input, [generateTasks] returns between 3 and 5
    tasks, and they are the first tasks of the fixed order research, plan,
    resources, execute, review: the names are a prefix of the five display
    names and the descriptions are the hints of the first roles, in order,
    none skipped. *)
Theorem generateTasks_prefix (ctx : jsstring) (w : World) :
  let ts := fst (generateTasks ctx w) in
  3 <= length ts <= 5
  /\ map name ts = firstn (length ts) role_names
  /\ map description ts
     = map (domainHints (inferDomain ctx)) (firstn (length ts) role_order).
Proof.
  destruct (generateTasks_firstn ctx w) as (n & _ & Hn & E).
  cbv zeta. rewrite E.
  assert (Hcases : n = 3 \/ n = 4 \/ n = 5) by lia.
  destruct Hcases as [-> | [-> | ->]]; repeat split; simpl; lia.
Qed.

(** C3.  The number of tasks asked for is read at the first place of the
    input, as given, where a run of digits is followed by optional white
    space and the letters task: the digits are read as a decimal number and
    clamped to 3..5.  Asking for 0 or 1 gives 3, asking for 10 gives 5, a
    second request is ignored, upper-case TASK is no request, and without
    any request the count is 5.  The list returned has that length. *)
Theorem desired_first_request :
  (forall pre suf ds ts,
      count_request suf ds -> none_before pre suf ->
      desired (pre ++ suf) ts = Some (Z.min 5 (Z.max 3 (digitsValue ds))))
  /\ (forall s ts,
        (forall p1 s1 ds, s = p1 ++ s1 -> ~ count_request s1 ds) ->
        length ts = 5 -> desired s ts = Some 5%Z)
  /\ (forall ctx w ts,
        length ts = 5 ->
        exists d, desired ctx ts = Some d /\ (3 <= d <= 5)%Z
                  /\ length (fst (generateTasks ctx w)) = Z.to_nat d)
  /\ (forall ts,
        desired (lit "0 tasks") ts = Some 3%Z
        /\ desired (lit "1 task") ts = Some 3%Z
        /\ desired (lit "10 tasks") ts = Some 5%Z
        /\ desired (lit "first 4 tasks, then 3 tasks") ts = Some 4%Z
        /\ desired (lit "4 TASKS") ts = Some (Z.of_nat (length ts))).
Proof.
  split; [|split; [|split]].
  - intros pre suf ds ts. apply desired_request.
  - intros s ts Hnone Hlen. rewrite desired_no_request by assumption.
    now rewrite Hlen.
  - intros ctx w ts Hlen.
    destruct (generateTasks_firstn ctx w) as (n & Hd & Hn & E).
    exists (Z.of_nat n). rewrite Nat2Z.id. repeat split; try lia.
    + rewrite <- Hd. apply desired_length_only. now rewrite Hlen.
    + rewrite E, length_firstn, allTasks_length. lia.
  - intros ts. repeat split; reflexivity.
Qed.

(** C4.  The task at position [i] of the result has the time frame
    [pickTimeframe (i + 1)] when the domain is generic and
    [pickTimeframe i] otherwise.  The two examples of the specification:
    a generic text asking for 1 task gives 3 tasks with the labels at 1, 2
    and 3 of the cycle; the exam text asking for 4 tasks gives the four
    exam hints with the labels at 0..3. *)
Theorem generateTasks_timeframes :
  (forall ctx w i t,
      nth_error (fst (generateTasks ctx w)) i = Some t ->
      (inferDomain ctx = generic ->
       timeframe t = pickTimeframe (Z.of_nat i + 1))
      /\ (inferDomain ctx <> generic ->
          timeframe t = pickTimeframe (Z.of_nat i)))
  /\ (forall w,
        let ts := fst (generateTasks (lit "random babble, 1 task") w) in
        inferDomain (lit "random babble, 1 task") = generic
        /\ length ts = 3
        /\ map timeframe ts
           = [nth_error DEFAULT_TIMEFRAMES 1; nth_error DEFAULT_TIMEFRAMES 2;
              nth_error DEFAULT_TIMEFRAMES 3])
  /\ (forall w,
        let ctx := lit "I need to prepare for an exam, make 4 tasks" in
        let ts := fst (generateTasks ctx w) in
        inferDomain ctx = exam
        /\ length ts = 4
        /\ map name ts = firstn 4 role_names
        /\ map description ts
           = map (domainHints exam) [research; plan; resources; execute]
        /\ map timeframe ts
           = [nth_error DEFAULT_TIMEFRAMES 0; nth_error DEFAULT_TIMEFRAMES 1;
              nth_error DEFAULT_TIMEFRAMES 2; nth_error DEFAULT_TIMEFRAMES 3]).
Proof.
  split; [|split].
  - intros ctx w i t.
    destruct (generateTasks_firstn ctx w) as (n & _ & Hn & ->).
    intros Ht.
    assert (Hi : timeframe t
                 = pickTimeframe (Z.of_nat i + offsetOf (inferDomain ctx))).
    { assert (Hcases : n = 3 \/ n = 4 \/ n = 5) by lia.
      destruct Hcases as [-> | [-> | ->]];
        destruct i as [|[|[|[|[|i]]]]]; simpl in Ht;
        try discriminate; try (destruct i; discriminate);
        injection Ht as <-; reflexivity. }
    rewrite Hi. unfold offsetOf. split.
    + intros ->. reflexivity.
    + intros Hne. destruct (inferDomain ctx); try congruence;
        simpl; now rewrite Z.add_0_r.
  - intros w. repeat split.
  - intros w. repeat split.
Qed.

(** C8.  For an index [i >= 0], [pickTimeframe i] is the label at
    [i mod 7] of the cycle of seven labels; it is always defined and has
    period 7, so [pickTimeframe 7] is [pickTimeframe 0]. *)
Theorem pickTimeframe_cycle :
  DEFAULT_TIMEFRAMES
  = [ lit "15 minutes"; lit "30 minutes"; lit "1 hour"; lit "2 hours";
      lit "Half day"; lit "1 day"; lit "2" ++ [en_dash] ++ lit "3 days" ]
  /\ (forall i, (0 <= i)%Z ->
        pickTimeframe i = nth_error DEFAULT_TIMEFRAMES (Z.to_nat (i mod 7))
        /\ (exists label, pickTimeframe i = Some label)
        /\ pickTimeframe (i + 7) = pickTimeframe i)
  /\ pickTimeframe 7 = pickTimeframe 0.
Proof.
  split; [reflexivity|]. split; [|reflexivity].
  assert (Hpick : forall i, (0 <= i)%Z ->
            pickTimeframe i
            = nth_error DEFAULT_TIMEFRAMES (Z.to_nat (i mod 7))).
  { intros i Hi. unfold pickTimeframe, index.
    change (Z.of_nat (length DEFAULT_TIMEFRAMES)) with 7%Z.
    rewrite Z.rem_mod_nonneg by lia.
    destruct (Z.ltb_spec (i mod 7) 0); [|reflexivity].
    pose proof (Z.mod_pos_bound i 7). lia. }
  intros i Hi. repeat split.
  - now apply Hpick.
  - rewrite Hpick by assumption.
    destruct (nth_error DEFAULT_TIMEFRAMES (Z.to_nat (i mod 7))) eqn:E;
      [eauto|].
    apply nth_error_None in E. change (length DEFAULT_TIMEFRAMES) with 7 in E.
    pose proof (Z.mod_pos_bound i 7). lia.
  - rewrite !Hpick by lia. do 2 f_equal.
    replace (i + 7)%Z with (i + 1 * 7)%Z by lia. apply Z_mod_plus_full.
Qed.

(** ** The handlers of [App] *)

Lemma jsstring_eqb_eq a b : jsstring_eqb a b = true <-> a = b.
Proof.
  unfold jsstring_eqb. destruct (list_eq_dec N.eq_dec a b); split;
    congruence.
Qed.

Lemma falsy_true s : falsy s = true <-> s = [].
Proof. destruct s; simpl; split; congruence. Qed.

Lemma dropWhile_nil_all p s : dropWhile p s = [] -> forallb p s = true.
Proof.
  induction s as [|c s IH]; simpl; [reflexivity|].
  destruct (p c); [exact IH | discriminate].
Qed.

Lemma dropWhile_head p s c s' : dropWhile p s = c :: s' -> p c = false.
Proof.
  induction s as [|a s IH]; simpl; [discriminate|].
  destruct (p a) eqn:E; [exact IH | congruence].
Qed.

Lemma forallb_reverse (p : N -> bool) s : forallb p (rev s) = forallb p s.
Proof.
  induction s as [|c s IH]; simpl; [reflexivity|].
  rewrite forallb_app, IH. simpl. rewrite andb_true_r. apply andb_comm.
Qed.

(** [trim] leaves nothing exactly when every code unit is white space. *)
Lemma trim_empty s : trim s = [] <-> forallb isWhiteSpace s = true.
Proof.
  unfold trim. split.
  - intros H. apply (f_equal (@rev N)) in H. rewrite rev_involutive in H.
    simpl in H. apply dropWhile_nil_all in H. rewrite forallb_reverse in H.
    destruct (dropWhile isWhiteSpace s) as [|c s'] eqn:E.
    + now apply dropWhile_nil_all.
    + apply dropWhile_head in E. simpl in H. rewrite E in H. discriminate.
  - intros H. now rewrite (dropWhile_all _ _ H).
Qed.

Lemma NoDup_map_inj {A B} (f : A -> B) l a b :
  NoDup (map f l) -> In a l -> In b l -> f a = f b -> a = b.
Proof.
  induction l as [|x l IH]; simpl; [tauto|].
  intros Hnd Ha Hb E. inversion Hnd as [|? ? Hnotin Hnd']; subst.
  destruct Ha as [->|Ha], Hb as [->|Hb]; auto.
  - exfalso. apply Hnotin. rewrite E. now apply in_map.
  - exfalso. apply Hnotin. rewrite <- E. now apply in_map.
Qed.

Section HandlerFacts.
Variable toISOString : Z -> jsstring.

Lemma toggleComplete_tasks task st w :
  tasks (fst (toggleComplete toISOString task st w))
  = map (fun t =>
           if jsstring_eqb (id t) (id task)
           then mkTask (id task) (name task) (description task)
                  (timeframe task) (negb (completed task))
           else t) (tasks st).
Proof.
  unfold toggleComplete.
  destruct (completed task); simpl; [reflexivity|].
  destruct (falsy (webhookUrl st)); reflexivity.
Qed.

Lemma settle_tasks o st w : tasks (fst (settle o st w)) = tasks st.
Proof.
  destruct o as [res|err]; simpl.
  - unfold webhookThen, bind. destruct (text res) as [b| |]; simpl;
      [destruct (negb (ok res) && negb (falsy b)) | destruct (ok res) |];
      reflexivity.
  - reflexivity.
Qed.

Lemma settle_fetched o st w : fetched (snd (settle o st w)) = fetched w.
Proof.
  destruct o as [res|err]; simpl.
  - unfold webhookThen, bind. destruct (text res) as [b| |]; simpl;
      [destruct (negb (ok res) && negb (falsy b)) | destruct (ok res) |];
      reflexivity.
  - reflexivity.
Qed.
Lemma settle_same_notice o st1 st2 w1 w2 :
  notice st1 = notice st2 ->
  notice (fst (settle o st1 w1)) = notice (fst (settle o st2 w2)).
Proof.
  intros E. destruct o as [res|err]; simpl; [|reflexivity].
  unfold webhookThen, bind. destruct (text res) as [b| |]; simpl;
    [destruct (negb (ok res) && negb (falsy b)) | destruct (ok res) |];
    simpl; auto.
Qed.

Lemma toggleComplete_sends task st w :
  completed task = false -> webhookUrl st <> [] ->
  (exists rq,
      fetched (snd (toggleComplete toISOString task st w)) = fetched w ++ [rq]
      /\ method rq = lit "POST" /\ url rq = webhookUrl st)
  /\ notice (fst (toggleComplete toISOString task st w)) = notice st.
Proof.
  intros Hc Hurl. unfold toggleComplete. rewrite Hc. simpl.
  destruct (webhookUrl st) as [|c u] eqn:E; [congruence|]. simpl.
  split; [|reflexivity]. eexists. split; [reflexivity|]. split; reflexivity.
Qed.

Lemma run_click_settle u w i t o :
  nth_error (tasks (uiApp u)) i = Some t ->
  run toISOString [ClickCheckbox i; FetchSettled o] u w
  = (mkUi (fst (settle o (fst (toggleComplete toISOString t (uiApp u) w))
                  (snd (toggleComplete toISOString t (uiApp u) w))))
       (uiEdit u),
     snd (settle o (fst (toggleComplete toISOString t (uiApp u) w))
            (snd (toggleComplete toISOString t (uiApp u) w)))).
Proof.
  intros Ht. cbn [run handle]. rewrite Ht. unfold bind, ret.
  destruct (toggleComplete toISOString t (uiApp u) w) as [a' w'].
  cbn [fst snd uiApp uiEdit]. now destruct (settle o a' w').
Qed.
End HandlerFacts.

Section Notifier.
Variable toISOString : Z -> jsstring.

(** C5.  With an empty webhook URL, toggling a task never reaches the
    network: the world is left as it was, so no request is issued, and
    when the toggle marks the task complete the notice is the
    configuration error. *)
Theorem toggleComplete_no_url (task : Task) (st : AppState) (w : World) :
  webhookUrl st = [] ->
  snd (toggleComplete toISOString task st w) = w
  /\ fetched (snd (toggleComplete toISOString task st w)) = fetched w
  /\ (completed task = false ->
      notice (fst (toggleComplete toISOString task st w))
      = Some {| type := error;
                message :=
                  lit "No webhook URL set. Open Settings to add one." |}).
Proof.
  intros Hurl. unfold toggleComplete. rewrite Hurl.
  destruct (completed task); simpl; repeat split; intros; congruence.
Qed.

(** C6, as amended.  With a webhook URL, marking a task complete issues
    exactly one request, a POST to that URL, and what happens to that
    request decides the notice through the callbacks of [.then] and
    [.catch].  For a response the notice is set once the body has been
    read or the read has failed, and until then nothing is set: then a
    status in 200..299 gives the success notice and any other status the
    error notice with the status number and the status text (500 gives
    "Webhook failed: 500 ...").  When [fetch] fails without a response the
    error notice carries the message of the failure, or "Network error"
    when there is none.  What the body holds, or that reading it fails,
    changes neither the notice nor the rest of the state, and no callback
    sends anything. *)
Theorem webhook_outcome :
  (forall u w i t o,
      nth_error (tasks (uiApp u)) i = Some t ->
      completed t = false -> webhookUrl (uiApp u) <> [] ->
      (exists rq,
          fetched (snd (run toISOString [ClickCheckbox i; FetchSettled o] u w))
          = fetched w ++ [rq]
          /\ method rq = lit "POST" /\ url rq = webhookUrl (uiApp u))
      /\ notice (uiApp (fst (run toISOString
                               [ClickCheckbox i; FetchSettled o] u w)))
         = notice (fst (settle o (uiApp u) w)))
  /\ (forall res st w,
        text res <> TextPending ->
        (200 <= status res <= 299)%N ->
        notice (fst (settle (Fulfilled res) st w))
        = Some {| type := success;
                  message := lit "Webhook sent successfully." |})
  /\ (forall res st w,
        text res <> TextPending ->
        ~ (200 <= status res <= 299)%N ->
        notice (fst (settle (Fulfilled res) st w))
        = Some {| type := error;
                  message := lit "Webhook failed: " ++ decimal (status res)
                               ++ lit " " ++ statusText res |})
  /\ (forall txt b st w,
        b <> TextPending ->
        notice (fst (settle (Fulfilled (mkResponse 500 txt b)) st w))
        = Some {| type := error;
                  message := lit "Webhook failed: 500 " ++ txt |})
  /\ (forall res st w,
        text res = TextPending -> settle (Fulfilled res) st w = (st, w))
  /\ (forall m st w,
        m <> [] ->
        notice (fst (settle (Rejected (mkRejection (Some m))) st w))
        = Some {| type := error; message := lit "Webhook error: " ++ m |})
  /\ (forall m st w,
        m = None \/ m = Some [] ->
        notice (fst (settle (Rejected (mkRejection m)) st w))
        = Some {| type := error;
                  message := lit "Webhook error: Network error" |})
  /\ (forall s txt b1 b2 st w,
        b1 <> TextPending -> b2 <> TextPending ->
        fst (settle (Fulfilled (mkResponse s txt b1)) st w)
        = fst (settle (Fulfilled (mkResponse s txt b2)) st w))
  /\ (forall o st w, fetched (snd (settle o st w)) = fetched w).
Proof.
  assert (Hok : forall res,
             ok res = true <-> (200 <= status res <= 299)%N).
  { intros res. unfold ok, in_range.
    rewrite andb_true_iff, !N.leb_le. tauto. }
  assert (Hset : forall res st w,
             text res <> TextPending ->
             fst (settle (Fulfilled res) st w)
             = setNotice
                 {| type := if ok res then success else error;
                    message :=
                      if ok res then lit "Webhook sent successfully."
                      else lit "Webhook failed: " ++ decimal (status res)
                             ++ lit " " ++ statusText res |} st).
  { intros res st w Hp. simpl. unfold webhookThen, bind.
    destruct (text res) as [b| |]; [| |congruence]; simpl.
    - destruct (negb (ok res) && negb (falsy b)); reflexivity.
    - destruct (ok res); reflexivity. }
  split; [|split; [|split; [|split; [|split; [|split; [|split; [|split]]]]]]].
  - intros u w i t o Ht Hc Hurl. rewrite (@run_click_settle toISOString u w i t o Ht).
    cbn [fst snd uiApp].
    destruct (@toggleComplete_sends toISOString t (uiApp u) w Hc Hurl) as [Hrq Hn].
    split.
    + now rewrite settle_fetched.
    + now apply settle_same_notice.
  - intros res st w Hp Hs. rewrite Hset by assumption.
    apply Hok in Hs. now rewrite Hs.
  - intros res st w Hp Hs. rewrite Hset by assumption.
    destruct (ok res) eqn:E; [apply Hok in E; tauto | reflexivity].
  - intros txt b st w Hp. rewrite Hset by assumption. reflexivity.
  - intros res st w Hp. simpl. unfold webhookThen. now rewrite Hp.
  - intros m st w Hm. destruct m; [congruence | reflexivity].
  - intros m st w [-> | ->]; reflexivity.
  - intros s txt b1 b2 st w H1 H2. rewrite !Hset by assumption. reflexivity.
  - apply settle_fetched.
Qed.

(** C7.  The request of a completion has the method POST, the single
    header Content-Type: application/json, and as body the JSON object
    with the members event = "task_completed", timestamp = the ISO string
    of the clock at the call, source = "taskgen-local-app", version = 1,
    task = the id, name, description and time frame of the task with
    completed = true, and context = the text of the input field. *)
Theorem toggleComplete_request (task : Task) (st : AppState) (w : World)
  (tf : jsstring) :
  completed task = false ->
  webhookUrl st <> [] ->
  timeframe task = Some tf ->
  fetched (snd (toggleComplete toISOString task st w))
  = fetched w ++
    [ {| url := webhookUrl st;
         method := lit "POST";
         headers := [ (lit "Content-Type", lit "application/json") ];
         body :=
           Some (JObj
             [ (lit "event", JStr (lit "task_completed"));
               (lit "timestamp", JStr (toISOString (clock w)));
               (lit "source", JStr (lit "taskgen-local-app"));
               (lit "version", JNum 1);
               (lit "task",
                 JObj [ (lit "id", JStr (id task));
                        (lit "name", JStr (name task));
                        (lit "description", JStr (description task));
                        (lit "timeframe", JStr tf);
                        (lit "completed", JBool true) ]);
               (lit "context", JStr (context st)) ]) |} ].
Proof.
  intros Hc Hurl Htf. unfold toggleComplete. rewrite Hc. simpl.
  destruct (webhookUrl st) as [|c u] eqn:E; [congruence|]. simpl.
  rewrite Htf. reflexivity.
Qed.

(** C10, as amended.  Toggling a task rewrites the list before anything
    else and in every branch: every row with the id of the task becomes
    the task with its check mark flipped (set, when it was not complete)
    and its other fields kept, and every row with another id stays as it
    is, in the same place; in a list with distinct ids that holds the
    task, the task is the one row that changes.  The new list does not
    depend on the webhook URL or on the world, no settlement of the
    request changes it, and un-checking a complete task touches neither
    the network nor the notice. *)
Theorem toggleComplete_frame :
  (forall task st w,
      let st' := fst (toggleComplete toISOString task st w) in
      length (tasks st') = length (tasks st)
      /\ forall i t,
           nth_error (tasks st) i = Some t ->
           (id t = id task ->
            nth_error (tasks st') i
            = Some (mkTask (id task) (name task) (description task)
                      (timeframe task) (negb (completed task))))
           /\ (id t <> id task -> nth_error (tasks st') i = Some t))
  /\ (forall task st w,
        In task (tasks st) -> NoDup (map id (tasks st)) ->
        completed task = false ->
        let st' := fst (toggleComplete toISOString task st w) in
        length (tasks st') = length (tasks st)
        /\ forall i t,
             nth_error (tasks st) i = Some t ->
             (t = task -> nth_error (tasks st') i = Some (markComplete task))
             /\ (t <> task -> nth_error (tasks st') i = Some t))
  /\ (forall task st1 st2 w1 w2,
        tasks st1 = tasks st2 ->
        tasks (fst (toggleComplete toISOString task st1 w1))
        = tasks (fst (toggleComplete toISOString task st2 w2)))
  /\ (forall o st w, tasks (fst (settle o st w)) = tasks st)
  /\ (forall task st w,
        completed task = true ->
        snd (toggleComplete toISOString task st w) = w
        /\ notice (fst (toggleComplete toISOString task st w)) = notice st).
Proof.
  split; [|split; [|split; [|split]]].
  - intros task st w st'. unfold st'.
    rewrite toggleComplete_tasks. split; [apply length_map|].
    intros i t Ht. rewrite nth_error_map, Ht. simpl. split.
    + intros E. now rewrite (proj2 (jsstring_eqb_eq (id t) (id task)) E).
    + intros Hne.
      destruct (jsstring_eqb (id t) (id task)) eqn:E; [|reflexivity].
      apply jsstring_eqb_eq in E. contradiction.
  - intros task st w Hin Hnd Hc st'. unfold st'.
    rewrite toggleComplete_tasks. split; [apply length_map|].
    intros i t Ht. rewrite nth_error_map, Ht. simpl. split.
    + intros ->.
      rewrite (proj2 (jsstring_eqb_eq (id task) (id task)) eq_refl).
      unfold markComplete. now rewrite Hc.
    + intros Hne.
      destruct (jsstring_eqb (id t) (id task)) eqn:E; [|reflexivity].
      apply jsstring_eqb_eq in E. exfalso. apply Hne.
      apply (NoDup_map_inj id (tasks st)); auto.
      now apply nth_error_In in Ht.
  - intros task st1 st2 w1 w2 E. rewrite !toggleComplete_tasks. now rewrite E.
  - apply settle_tasks.
  - intros task st w Hc. unfold toggleComplete. rewrite Hc. split; reflexivity.
Qed.

End Notifier.

(** C9.  When the text of the input field is empty or white space only,
    [addGenerated] shows the error notice and does nothing else: the task
    list, the rest of the state and the world (so, no call of [uid], no
    task built) are as before.  Any other text replaces the list by the
    tasks generated from the trimmed text. *)
Theorem addGenerated_blank (st : AppState) (w : World) :
  (forallb isWhiteSpace (context st) = true ->
   tasks (fst (addGenerated st w)) = tasks st
   /\ notice (fst (addGenerated st w))
      = Some {| type := error;
                message := lit "Please enter some context first." |}
   /\ context (fst (addGenerated st w)) = context st
   /\ webhookUrl (fst (addGenerated st w)) = webhookUrl st
   /\ snd (addGenerated st w) = w)
  /\ (forallb isWhiteSpace (context st) = false ->
      tasks (fst (addGenerated st w))
      = fst (generateTasks (trim (context st)) w)).
Proof.
  unfold addGenerated. split; intros H.
  - apply trim_empty in H. rewrite H. simpl. repeat split.
  - destruct (falsy (trim (context st))) eqn:E.
    + apply falsy_true, trim_empty in E. congruence.
    + unfold bind. destruct (generateTasks _ w). reflexivity.
Qed.

(** * Concrete instances *)

Lemma inferDomain_priority_witness :
  inferDomain (lit "Exam week, then a TRIP") = exam
  /\ inferDomain (lit "   ") = generic.
Proof.
  split.
  - destruct (inferDomain_priority (lit "Exam week, then a TRIP"))
      as (_ & _ & _ & _ & _ & _ & H & _).
    apply (H (lit "Exam") (lit "TRIP")).
    + simpl. left. reflexivity.
    + simpl. right. left. reflexivity.
    + exists [], (lit " week, then a TRIP"). reflexivity.
    + exists (lit "Exam week, then a "), []. reflexivity.
  - destruct (inferDomain_priority (lit "   "))
      as (_ & _ & _ & _ & _ & _ & _ & H).
    apply H. reflexivity.
Defined.

Lemma desired_first_request_witness :
  desired (lit "please make 4 tasks, not 3 tasks") [] = Some 4%Z.
Proof.
  destruct desired_first_request as (H & _).
  apply (H (lit "please make ") (lit "4 tasks, not 3 tasks") (lit "4") []).
  - exists (lit " "), (lit "s, not 3 tasks").
    split; [reflexivity|]. split; [discriminate|]. split; reflexivity.
  - apply none_before_no_digit. reflexivity.
Defined.

Lemma generateTasks_timeframes_witness :
  timeframe (taskAt generic sampleWorld 0 (research, lit "Research essentials"))
  = pickTimeframe 1.
Proof.
  destruct generateTasks_timeframes as (H & _).
  destruct (H (lit "random babble, 1 task") sampleWorld 0
              (taskAt generic sampleWorld 0
                 (research, lit "Research essentials")) eq_refl)
    as [Hg _].
  apply Hg. reflexivity.
Defined.

Lemma toggleComplete_no_url_witness :
  fetched (snd (toggleComplete sampleISO sampleTask (sampleApp []) sampleWorld))
  = []
  /\ notice (fst (toggleComplete sampleISO sampleTask (sampleApp [])
                    sampleWorld))
     = Some {| type := error;
               message := lit "No webhook URL set. Open Settings to add one." |}.
Proof.
  destruct (toggleComplete_no_url sampleISO sampleTask (sampleApp [])
              sampleWorld eq_refl) as (_ & Hf & Hn).
  split; [exact Hf | apply Hn; reflexivity].
Defined.

Lemma webhook_outcome_witness :
  (exists rq,
      fetched (snd (run sampleISO
                      [ClickCheckbox 0;
                       FetchSettled
                         (Fulfilled (mkResponse 204 (lit "No Content")
                                       (TextRead [])))]
                      (mkUi (sampleApp (lit "https://example.test/hook"))
                         cancelEdit) sampleWorld)) = [] ++ [rq]
      /\ method rq = lit "POST"
      /\ url rq = lit "https://example.test/hook")
  /\ notice (fst (settle (Fulfilled (mkResponse 204 (lit "No Content")
                                       (TextRead [])))
                    (sampleApp (lit "https://example.test/hook")) sampleWorld))
     = Some {| type := success; message := lit "Webhook sent successfully." |}
  /\ notice (fst (settle (Fulfilled (mkResponse 404 (lit "Not Found")
                                       TextFailed))
                    (sampleApp (lit "https://example.test/hook")) sampleWorld))
     = Some {| type := error; message := lit "Webhook failed: 404 Not Found" |}
  /\ notice (fst (settle (Rejected (mkRejection (Some (lit "Failed to fetch"))))
                    (sampleApp (lit "https://example.test/hook")) sampleWorld))
     = Some {| type := error;
               message := lit "Webhook error: Failed to fetch" |}.
Proof.
  destruct (webhook_outcome sampleISO)
    as (Hrun & Hok & Hfail & _ & _ & Hmsg & _).
  split; [|split; [|split]].
  - apply (Hrun (mkUi (sampleApp (lit "https://example.test/hook")) cancelEdit)
             sampleWorld 0 sampleTask);
      [reflexivity | reflexivity | discriminate].
  - apply Hok; [discriminate | simpl; lia].
  - apply (Hfail (mkResponse 404 (lit "Not Found") TextFailed));
      [discriminate | simpl; lia].
  - apply (Hmsg (lit "Failed to fetch")). discriminate.
Defined.

Lemma webhook_outcome_counterexample :
  notice (fst (settle (Fulfilled (mkResponse 200 (lit "OK") TextPending))
                 (sampleApp (lit "https://example.test/hook")) sampleWorld))
  = None
  /\ notice (fst (settle (Fulfilled (mkResponse 200 (lit "OK")
                                       (TextRead (lit "done"))))
                    (sampleApp (lit "https://example.test/hook")) sampleWorld))
     = Some {| type := success; message := lit "Webhook sent successfully." |}
  /\ ~ (forall res st w,
          (200 <= status res <= 299)%N ->
          notice (fst (settle (Fulfilled res) st w))
          = Some {| type := success;
                    message := lit "Webhook sent successfully." |}).
Proof.
  split; [reflexivity|]. split; [reflexivity|].
  intros H.
  specialize (H (mkResponse 200 (lit "OK") TextPending)
                (sampleApp (lit "https://example.test/hook")) sampleWorld).
  simpl in H. assert (Hs : (200 <= 200 <= 299)%N) by lia.
  specialize (H Hs). discriminate H.
Qed.

Lemma toggleComplete_request_witness :
  map method
    (fetched (snd (toggleComplete sampleISO sampleTask
                     (sampleApp (lit "https://example.test/hook"))
                     sampleWorld)))
  = [lit "POST"].
Proof.
  rewrite (toggleComplete_request sampleISO sampleTask
             (sampleApp (lit "https://example.test/hook")) sampleWorld
             (tf := lit "30 minutes")).
  - reflexivity.
  - reflexivity.
  - discriminate.
  - reflexivity.
Defined.

Lemma pickTimeframe_cycle_witness :
  pickTimeframe (9 + 7) = pickTimeframe 9
  /\ pickTimeframe 9 = Some (lit "1 hour").
Proof.
  destruct pickTimeframe_cycle as (_ & H & _).
  destruct (H 9%Z) as (E & _ & Hper); [lia|].
  split; [exact Hper | rewrite E; reflexivity].
Defined.

Lemma addGenerated_blank_witness :
  tasks (fst (addGenerated (mkApp (lit "   ") [sampleTask] [] None)
                sampleWorld)) = [sampleTask]
  /\ snd (addGenerated (mkApp (lit "   ") [sampleTask] [] None) sampleWorld)
     = sampleWorld.
Proof.
  destruct (addGenerated_blank (mkApp (lit "   ") [sampleTask] [] None)
              sampleWorld) as (H & _).
  destruct (H eq_refl) as (Ht & _ & _ & _ & Hw).
  split; [exact Ht | exact Hw].
Defined.

Lemma toggleComplete_frame_witness :
  tasks (fst (toggleComplete sampleISO sampleTask (sampleApp []) sampleWorld))
  = [markComplete sampleTask; otherTask]
  /\ nth_error (tasks (fst (toggleComplete sampleISO twinTaskA twinApp
                              sampleWorld))) 1
     = Some twinTaskM.
Proof.
  destruct (toggleComplete_frame sampleISO) as (Hall & H & _).
  split.
  - destruct (H sampleTask (sampleApp []) sampleWorld) as (Hlen & Hnth).
    + simpl. left. reflexivity.
    + simpl. repeat constructor; simpl; intuition discriminate.
    + reflexivity.
    + destruct (Hnth 0 sampleTask eq_refl) as [H0 _].
      destruct (Hnth 1 otherTask eq_refl) as [_ H1].
      specialize (H0 eq_refl).
      assert (Hne : otherTask <> sampleTask) by discriminate.
      specialize (H1 Hne).
      destruct (tasks (fst (toggleComplete sampleISO sampleTask (sampleApp [])
                              sampleWorld))) as [|a [|b [|c l]]];
        simpl in Hlen, H0, H1; try discriminate.
      congruence.
  - destruct (Hall twinTaskA twinApp sampleWorld) as (_ & Hnth).
    destruct (Hnth 1 twinTaskM eq_refl) as [_ H1].
    apply H1. discriminate.
Defined.

Lemma toggleComplete_frame_counterexample :
  nth_error (tasks twinApp) 2 = Some twinTaskB
  /\ twinTaskB <> twinTaskA
  /\ nth_error (tasks (fst (toggleComplete sampleISO twinTaskA twinApp
                              sampleWorld))) 2
     = Some (markComplete twinTaskA)
  /\ markComplete twinTaskA <> twinTaskB.
Proof.
  split; [reflexivity|]. split; [discriminate|].
  split; [reflexivity | discriminate].
Qed.

(** * Further properties of the code *)

Unset Implicit Arguments.

(** ** Time frames *)

Lemma pickTimeframe_nonneg i :
  (0 <= i)%Z ->
  pickTimeframe i = nth_error DEFAULT_TIMEFRAMES (Z.to_nat (i mod 7)).
Proof.
  intros Hi. unfold pickTimeframe, index.
  change (Z.of_nat (length DEFAULT_TIMEFRAMES)) with 7%Z.
  rewrite Z.rem_mod_nonneg by lia.
  destruct (Z.ltb_spec (i mod 7) 0); [|reflexivity].
  pose proof (Z.mod_pos_bound i 7). lia.
Qed.

Lemma pickTimeframe_defined i :
  (0 <= i)%Z ->
  exists label, pickTimeframe i = Some label /\ In label DEFAULT_TIMEFRAMES.
Proof.
  intros Hi. rewrite pickTimeframe_nonneg by assumption.
  destruct (nth_error DEFAULT_TIMEFRAMES (Z.to_nat (i mod 7))) eqn:E.
  - eexists. split; [reflexivity|]. now apply nth_error_In in E.
  - apply nth_error_None in E. change (length DEFAULT_TIMEFRAMES) with 7 in E.
    pose proof (Z.mod_pos_bound i 7). lia.
Qed.

(** X2.  Below zero the cycle does not wrap around: a negative index gives
    no label (undefined), except a multiple of 7, which gives the first
    label. *)
Theorem pickTimeframe_below_zero (i : Z) :
  (i < 0)%Z ->
  (i mod 7 = 0 -> pickTimeframe i = Some (lit "15 minutes"))%Z
  /\ (i mod 7 <> 0 -> pickTimeframe i = None)%Z.
Proof.
  intros Hi. unfold pickTimeframe, index.
  change (Z.of_nat (length DEFAULT_TIMEFRAMES)) with 7%Z.
  pose proof (Z.rem_nonpos i 7 ltac:(lia) ltac:(lia)) as Hb.
  assert (Hz : Z.rem i 7 = 0%Z <-> (i mod 7 = 0)%Z).
  { rewrite Z.rem_divide, Z.mod_divide by lia. tauto. }
  split; intros Hm.
  - apply Hz in Hm. rewrite Hm. reflexivity.
  - destruct (Z.ltb_spec (Z.rem i 7) 0) as [|Hge]; [reflexivity|].
    exfalso. apply Hm, Hz. lia.
Qed.

Lemma pickTimeframe_below_zero_witness :
  pickTimeframe (-14) = Some (lit "15 minutes") /\ pickTimeframe (-3) = None.
Proof.
  split.
  - apply (@pickTimeframe_below_zero (-14)%Z); [lia | reflexivity].
  - apply (@pickTimeframe_below_zero (-3)%Z); [lia | discriminate].
Defined.

(** ** More on the synthesizer *)

Lemma In_prefix {A} (l : list A) n x : In x (firstn n l) -> In x l.
Proof.
  revert n. induction l as [|y l IH]; intros [|n]; simpl; try tauto.
  intros [->|Hin]; [now left | right; eauto].
Qed.

Lemma NoDup_prefix {A} (l : list A) n : NoDup l -> NoDup (firstn n l).
Proof.
  revert n. induction l as [|x l IH]; intros [|n] H; simpl;
    try constructor.
  - inversion H as [|? ? Hx Hl]; subst. intros Hin. apply Hx.
    now apply In_prefix in Hin.
  - inversion H; subst. now apply IH.
Qed.

(** X3.  [generateTasks] calls [uid] five times whatever the number of
    tasks it returns and changes nothing else of the world; the tasks it
    returns are not completed and carry, in order, the first ids drawn; so
    when the five ids drawn are pairwise different, so are the ids of the
    result. *)
Theorem generateTasks_ids (ctx : jsstring) (w : World) :
  let ts := fst (generateTasks ctx w) in
  snd (generateTasks ctx w)
  = mkWorld (entropy w) (5 + uidCalls w) (clock w) (fetched w) (console w)
  /\ map id ts = map (entropy w) (seq (uidCalls w) (length ts))
  /\ Forall (fun t => completed t = false) ts
  /\ (NoDup (map (entropy w) (seq (uidCalls w) 5)) -> NoDup (map id ts)).
Proof.
  cbv zeta. destruct (generateTasks_firstn ctx w) as (n & _ & Hn & E).
  rewrite E. rewrite generateTasks_eq. cbn [snd].
  assert (Hids : map id (allTasks (inferDomain ctx) w)
                 = map (entropy w) (seq (uidCalls w) 5)) by reflexivity.
  split; [reflexivity|]. split; [|split].
  - assert (Hcases : n = 3 \/ n = 4 \/ n = 5) by lia.
    destruct Hcases as [-> | [-> | ->]]; reflexivity.
  - apply Forall_forall. intros t Ht. apply In_prefix in Ht.
    unfold allTasks in Ht. apply in_map_iff in Ht as (ib & <- & _).
    reflexivity.
  - intros Hnd. rewrite <- firstn_map, Hids. now apply NoDup_prefix.
Qed.

Lemma generateTasks_ids_witness :
  NoDup (map id (fst (generateTasks (lit "gym, 3 tasks") sampleWorld))).
Proof.
  destruct (generateTasks_ids (lit "gym, 3 tasks") sampleWorld)
    as (_ & _ & _ & H).
  apply H. simpl. repeat constructor; simpl; intuition discriminate.
Defined.

(** X4.  Every task that [generateTasks] returns has a time frame, one of
    the seven labels of the cycle, and no two tasks of one result have the
    same label. *)
Theorem generateTasks_labels (ctx : jsstring) (w : World) :
  let ts := fst (generateTasks ctx w) in
  (forall t, In t ts ->
     exists label, timeframe t = Some label /\ In label DEFAULT_TIMEFRAMES)
  /\ NoDup (map timeframe ts).
Proof.
  cbv zeta. destruct (generateTasks_firstn ctx w) as (n & _ & Hn & E).
  rewrite E. split.
  - intros t Ht. apply In_prefix in Ht. unfold allTasks in Ht.
    apply in_map_iff in Ht as ([i b] & <- & Hin). cbn [taskAt timeframe fst].
    apply pickTimeframe_defined. unfold offsetOf.
    destruct (domain_eqb _ _); lia.
  - rewrite <- firstn_map. apply NoDup_prefix.
    unfold allTasks, taskAt, offsetOf.
    destruct (domain_eqb (inferDomain ctx) generic); simpl;
      repeat constructor; simpl; intuition discriminate.
Qed.

(** ** White space around the context *)

Lemma trim_split s :
  exists a b,
    s = a ++ trim s ++ b
    /\ forallb isWhiteSpace a = true /\ forallb isWhiteSpace b = true.
Proof.
  exists (takeWhile isWhiteSpace s),
         (rev (takeWhile isWhiteSpace (rev (dropWhile isWhiteSpace s)))).
  split; [|split].
  - unfold trim. rewrite <- rev_app_distr, takeWhile_dropWhile, rev_involutive.
    symmetry. apply takeWhile_dropWhile.
  - apply takeWhile_all.
  - rewrite forallb_reverse. apply takeWhile_all.
Qed.

Lemma front_inside a : forall pre c y x,
  forallb isWhiteSpace a = true -> isWhiteSpace c = false ->
  pre ++ c :: y = a ++ x ->
  exists pre', pre = a ++ pre' /\ x = pre' ++ c :: y.
Proof.
  induction a as [|d a IH]; intros pre c y x Ha Hc E.
  - exists pre. auto.
  - simpl in Ha. apply andb_prop in Ha as [Hd Ha].
    destruct pre as [|p pre]; simpl in E; injection E as -> E.
    + congruence.
    + destruct (IH pre c y x Ha Hc E) as (pre' & -> & ->). exists pre'. auto.
Qed.

Lemma back_inside b post c y x :
  forallb isWhiteSpace b = true -> isWhiteSpace c = false ->
  (y ++ [c]) ++ post = x ++ b ->
  exists post', post = post' ++ b /\ x = (y ++ [c]) ++ post'.
Proof.
  intros Hb Hc E. apply (f_equal (@rev N)) in E.
  rewrite !rev_app_distr in E. simpl in E.
  destruct (front_inside (rev b) (rev post) c (rev y) (rev x)) as (p & Hp & Hx).
  - now rewrite forallb_reverse.
  - exact Hc.
  - exact E.
  - exists (rev p). split.
    + apply (f_equal (@rev N)) in Hp.
      now rewrite rev_involutive, rev_app_distr, rev_involutive in Hp.
    + apply (f_equal (@rev N)) in Hx.
      rewrite rev_involutive, rev_app_distr in Hx. simpl in Hx.
      now rewrite rev_involutive in Hx.
Qed.

Lemma solidb_solid w : solidb w = true -> solid w.
Proof.
  destruct w as [|c y]; [discriminate|]. unfold solidb.
  intros H. apply andb_prop in H as [H1 H2].
  apply negb_true_iff in H1, H2.
  exists c, y, (last (c :: y) 0%N), (removelast (c :: y)).
  repeat split; auto. apply app_removelast_last. discriminate.
Qed.

Lemma contains_pad a b t w :
  forallb isWhiteSpace a = true -> forallb isWhiteSpace b = true ->
  solid w ->
  contains w (a ++ t ++ b) <-> contains w t.
Proof.
  intros Ha Hb (c & y & c' & y' & Ew & Ew' & Hc & Hc'). split.
  - intros (pre & post & E). rewrite Ew in E. symmetry in E.
    destruct (front_inside a pre c (y ++ post) (t ++ b) Ha Hc E)
      as (pre' & -> & E').
    change (pre' ++ c :: y ++ post) with (pre' ++ (c :: y) ++ post) in E'.
    rewrite <- Ew, Ew' in E'.
    destruct (back_inside b post c' (pre' ++ y') t Hb Hc') as (post' & -> & Et).
    { rewrite E'. now rewrite <- !app_assoc. }
    exists pre', post'. rewrite Et, Ew'. now rewrite <- !app_assoc.
  - intros (pre & post & ->). exists (a ++ pre), (post ++ b).
    now rewrite <- !app_assoc.
Qed.

Lemma phrase_contains x y s :
  phrase x y s <->
  exists mid, forallb isDot mid = true /\ contains (x ++ mid ++ y) s.
Proof.
  split.
  - intros (pre & mid & post & -> & Hm). exists mid. split; [exact Hm|].
    exists pre, post. now rewrite <- !app_assoc.
  - intros (mid & Hm & pre & post & ->). exists pre, mid, post.
    split; [now rewrite <- !app_assoc | exact Hm].
Qed.

Lemma solid_phrase x y mid : solidb x = true -> solidb y = true ->
  solid (x ++ mid ++ y).
Proof.
  intros Hx Hy.
  destruct (solidb_solid x Hx) as (c & x' & _ & _ & -> & _ & Hc & _).
  destruct (solidb_solid y Hy) as (_ & _ & c' & y' & _ & -> & _ & Hc').
  exists c, (x' ++ mid ++ y' ++ [c']), c', ((c :: x') ++ mid ++ y').
  repeat split; auto. now rewrite <- !app_assoc.
Qed.

Lemma keywords_pad kws a b lc :
  forallb isWhiteSpace a = true -> forallb isWhiteSpace b = true ->
  forallb solidb kws = true ->
  (exists kw, In kw kws /\ contains kw (a ++ lc ++ b))
  <-> (exists kw, In kw kws /\ contains kw lc).
Proof.
  intros Ha Hb Hk. rewrite forallb_forall in Hk.
  split; intros (kw & Hin & Hc); exists kw; (split; [exact Hin|]);
    apply (contains_pad a b lc kw Ha Hb (solidb_solid kw (Hk kw Hin)));
    exact Hc.
Qed.

Lemma phrase_pad x y a b lc :
  forallb isWhiteSpace a = true -> forallb isWhiteSpace b = true ->
  solidb x = true -> solidb y = true ->
  phrase x y (a ++ lc ++ b) <-> phrase x y lc.
Proof.
  intros Ha Hb Hx Hy. rewrite !phrase_contains.
  split; intros (mid & Hm & Hc); exists mid; (split; [exact Hm|]);
    apply (contains_pad a b lc _ Ha Hb (solid_phrase x y mid Hx Hy));
    exact Hc.
Qed.

Lemma mentions_pad d a b lc :
  forallb isWhiteSpace a = true -> forallb isWhiteSpace b = true ->
  mentions d (a ++ lc ++ b) <-> mentions d lc.
Proof.
  intros Ha Hb. destruct d; cbn [mentions]; try tauto;
    try (apply keywords_pad; auto; reflexivity).
  rewrite (keywords_pad pc_keywords a b lc Ha Hb eq_refl).
  rewrite (phrase_pad (lit "build") (lit "computer") a b lc Ha Hb eq_refl eq_refl).
  rewrite (phrase_pad (lit "gaming") (lit "rig") a b lc Ha Hb eq_refl eq_refl).
  tauto.
Qed.

Lemma bool_eq_iff (x y : bool) : (x = true <-> y = true) -> x = y.
Proof. destruct x, y; intuition congruence. Qed.

Lemma inferDomain_pad a b t :
  forallb isWhiteSpace a = true -> forallb isWhiteSpace b = true ->
  inferDomain (a ++ t ++ b) = inferDomain t.
Proof.
  intros Ha Hb. unfold inferDomain.
  rewrite !toLowerCase_app, (toLowerCase_space a Ha), (toLowerCase_space b Hb).
  set (lc := toLowerCase t).
  rewrite (bool_eq_iff (test re_exam (a ++ lc ++ b)) (test re_exam lc)),
    (bool_eq_iff (test re_moving (a ++ lc ++ b)) (test re_moving lc)),
    (bool_eq_iff (test re_pc (a ++ lc ++ b)) (test re_pc lc)),
    (bool_eq_iff (test re_travel (a ++ lc ++ b)) (test re_travel lc)),
    (bool_eq_iff (test re_fitness (a ++ lc ++ b)) (test re_fitness lc));
    [reflexivity | ..].
  - rewrite !test_fitness. now apply mentions_pad.
  - rewrite !test_travel. now apply mentions_pad.
  - rewrite !test_pc. now apply mentions_pad.
  - rewrite !test_moving. now apply mentions_pad.
  - rewrite !test_exam. now apply mentions_pad.
Qed.

Lemma space_not_digit c : isWhiteSpace c = true -> isDigit c = false.
Proof.
  intros H. destruct (isDigit c) eqn:E; [|reflexivity].
  rewrite (@digit_not_space c E) in H. discriminate.
Qed.

Lemma takeWhile_digit_space b :
  forallb isWhiteSpace b = true -> takeWhile isDigit b = [].
Proof.
  destruct b as [|c b]; [reflexivity|]. simpl. intros H.
  apply andb_prop in H as [Hc _]. now rewrite (space_not_digit c Hc).
Qed.

Lemma matchAt_count_space_head c s :
  isWhiteSpace c = true -> matchAt re_count (c :: s) = None.
Proof.
  intros H. rewrite matchAt_count. simpl takeWhile.
  now rewrite (space_not_digit c H).
Qed.

Lemma exec_count_lead a x :
  forallb isWhiteSpace a = true ->
  exec re_count (a ++ x) = exec re_count x.
Proof.
  induction a as [|c a IH]; [reflexivity|]. simpl forallb. intros H.
  apply andb_prop in H as [Hc Ha]. simpl app.
  rewrite exec_later by now apply matchAt_count_space_head.
  now apply IH.
Qed.

Lemma run_tail (p : N -> bool) u b :
  takeWhile p b = [] ->
  takeWhile p (u ++ b) = takeWhile p u
  /\ dropWhile p (u ++ b) = dropWhile p u ++ b.
Proof.
  intros Hb. induction u as [|c u [IH1 IH2]]; simpl.
  - split; [exact Hb|]. rewrite <- (takeWhile_dropWhile p b) at 2.
    now rewrite Hb.
  - destruct (p c); [now rewrite IH1 | split; reflexivity].
Qed.

Lemma dropWhile_app_all (p : N -> bool) x b :
  forallb p b = true ->
  dropWhile p (x ++ b)
  = match dropWhile p x with [] => [] | r => r ++ b end.
Proof.
  intros Hb. induction x as [|c x IH]; simpl.
  - now apply dropWhile_all.
  - destruct (p c); [exact IH | reflexivity].
Qed.

Lemma stripPrefix_app_none p : forall x b,
  stripPrefix p x = None ->
  (forall c, In c b -> ~ In c p) ->
  stripPrefix p (x ++ b) = None.
Proof.
  induction p as [|a p IH]; intros x b Hx Hb; [discriminate|].
  destruct x as [|y x]; simpl in *.
  - destruct b as [|c b]; [reflexivity|].
    destruct (N.eqb_spec a c) as [->|]; [|reflexivity].
    exfalso. apply (Hb c); now left.
  - destruct (a =? y)%N; [|reflexivity].
    apply IH; [exact Hx|]. intros c Hc Hin. apply (Hb c Hc). now right.
Qed.

Lemma space_not_in_task b c :
  forallb isWhiteSpace b = true -> In c b -> ~ In c (lit "task").
Proof.
  intros Hb Hc Hin. rewrite forallb_forall in Hb. apply Hb in Hc.
  change (lit "task") with [116; 97; 115; 107]%N in Hin. simpl in Hin.
  destruct Hin as [<-|[<-|[<-|[<-|[]]]]]; discriminate.
Qed.

Lemma matchAt_count_tail u b :
  forallb isWhiteSpace b = true ->
  matchAt re_count (u ++ b) = matchAt re_count u.
Proof.
  intros Hb. rewrite !matchAt_count.
  destruct (run_tail isDigit u b (takeWhile_digit_space b Hb)) as [-> ->].
  destruct (takeWhile isDigit u) as [|d ds]; [reflexivity|].
  rewrite (dropWhile_app_all isWhiteSpace _ b Hb).
  destruct (dropWhile isWhiteSpace (dropWhile isDigit u)) as [|h r] eqn:Er;
    [reflexivity|].
  destruct (stripPrefix (lit "task") (h :: r)) as [rest|] eqn:Es.
  - apply stripPrefix_Some in Es. rewrite Es, <- app_assoc, stripPrefix_app.
    do 2 f_equal. rewrite !length_app.
    replace (length u + length b - (length rest + length b))
      with (length u - length rest) by lia.
    rewrite firstn_app.
    replace (length u - length rest - length u) with 0 by lia.
    simpl. apply app_nil_r.
  - rewrite stripPrefix_app_none; [reflexivity | exact Es |].
    intros c. now apply space_not_in_task.
Qed.

Lemma exec_count_tail t b :
  forallb isWhiteSpace b = true ->
  exec re_count (t ++ b) = exec re_count t.
Proof.
  intros Hb. induction t as [|c t IH].
  - simpl app. rewrite <- (app_nil_r b) at 1. now apply exec_count_lead.
  - change ((c :: t) ++ b) with (c :: t ++ b). simpl exec.
    change (c :: t ++ b) with ((c :: t) ++ b).
    rewrite (matchAt_count_tail (c :: t) b Hb).
    destruct (matchAt re_count (c :: t)); [reflexivity | exact IH].
Qed.

Lemma desired_pad a b t ts :
  forallb isWhiteSpace a = true -> forallb isWhiteSpace b = true ->
  desired (a ++ t ++ b) ts = desired t ts.
Proof.
  intros Ha Hb. unfold desired, String_match. rewrite !or_else_empty.
  now rewrite (exec_count_lead a (t ++ b) Ha), (exec_count_tail t b Hb).
Qed.

Lemma generateTasks_pad a b t w :
  forallb isWhiteSpace a = true -> forallb isWhiteSpace b = true ->
  generateTasks (a ++ t ++ b) w = generateTasks t w.
Proof.
  intros Ha Hb. rewrite !generateTasks_eq.
  now rewrite (inferDomain_pad a b t Ha Hb), (desired_pad a b t _ Ha Hb).
Qed.

(** X5.  White space before and after the context changes nothing: the
    tasks generated from the trimmed text, which is what [addGenerated]
    passes, are the tasks generated from the text itself, with the same
    domain. *)
Theorem generateTasks_trim (s : jsstring) (w : World) :
  inferDomain (trim s) = inferDomain s
  /\ generateTasks (trim s) w = generateTasks s w.
Proof.
  destruct (trim_split s) as (a & b & E & Ha & Hb). split.
  - rewrite E at 2. symmetry. now apply inferDomain_pad.
  - rewrite E at 2. symmetry. now apply generateTasks_pad.
Qed.

(** ** Adding and deleting tasks *)

(** X6.  [addTask] draws one id and puts one task at the end of the list,
    leaving the tasks before it, the input text, the URL and the notice
    as they were.  The new task is not completed and always has a time
    frame: the label of the cycle at the old length modulo 7. *)
Theorem addTask_appends (st : AppState) (w : World) :
  exists t,
    tasks (fst (addTask st w)) = tasks st ++ [t]
    /\ id t = entropy w (uidCalls w)
    /\ completed t = false
    /\ timeframe t = nth_error DEFAULT_TIMEFRAMES (length (tasks st) mod 7)
    /\ (exists label, timeframe t = Some label)
    /\ context (fst (addTask st w)) = context st
    /\ webhookUrl (fst (addTask st w)) = webhookUrl st
    /\ notice (fst (addTask st w)) = notice st
    /\ snd (addTask st w)
       = mkWorld (entropy w) (S (uidCalls w)) (clock w) (fetched w) (console w).
Proof.
  eexists. split; [reflexivity|]. cbn [id completed timeframe].
  repeat split.
  - rewrite pickTimeframe_nonneg by lia. f_equal.
    change 7%Z with (Z.of_nat 7). rewrite <- Nat2Z.inj_mod. apply Nat2Z.id.
  - destruct (pickTimeframe_defined (Z.of_nat (length (tasks st))))
      as (label & H & _); [lia | eauto].
Qed.

Lemma filter_other_id id0 (l : list Task) :
  (forall t, In t l -> id t <> id0) ->
  filter (fun t => negb (jsstring_eqb (id t) id0)) l = l.
Proof.
  induction l as [|x l IH]; intros H; simpl; [reflexivity|].
  destruct (jsstring_eqb (id x) id0) eqn:E.
  - apply jsstring_eqb_eq in E. exfalso. apply (H x); [now left | exact E].
  - simpl. f_equal. apply IH. intros t Ht. apply H. now right.
Qed.

Lemma setTasks_same st : setTasks (fun _ => tasks st) st = st.
Proof. now destruct st. Qed.

(** X7.  [deleteTask id] keeps exactly the tasks whose id is different, in
    their order, and nothing else of the state changes.  In a list with
    distinct ids it takes out the one task with that id; when no task has
    the id it changes nothing; deleting twice is deleting once; distinct
    ids stay distinct. *)
Theorem deleteTask_removes (id0 : jsstring) (st : AppState) :
  (forall t, In t (tasks (deleteTask id0 st)) <->
             In t (tasks st) /\ id t <> id0)
  /\ (forall l1 t l2,
        tasks st = l1 ++ t :: l2 -> id t = id0 ->
        NoDup (map id (tasks st)) ->
        tasks (deleteTask id0 st) = l1 ++ l2)
  /\ ((forall t, In t (tasks st) -> id t <> id0) -> deleteTask id0 st = st)
  /\ deleteTask id0 (deleteTask id0 st) = deleteTask id0 st
  /\ (NoDup (map id (tasks st)) ->
      NoDup (map id (tasks (deleteTask id0 st))))
  /\ context (deleteTask id0 st) = context st
  /\ webhookUrl (deleteTask id0 st) = webhookUrl st
  /\ notice (deleteTask id0 st) = notice st.
Proof.
  assert (Hin : forall t, In t (tasks (deleteTask id0 st)) <->
                          In t (tasks st) /\ id t <> id0).
  { intros t. unfold deleteTask. simpl. rewrite filter_In, negb_true_iff.
    split; intros [H1 H2]; split; auto.
    - intros E. apply jsstring_eqb_eq in E. congruence.
    - destruct (jsstring_eqb (id t) id0) eqn:E; [|reflexivity].
      apply jsstring_eqb_eq in E. contradiction. }
  split; [exact Hin|]. split; [|split; [|split; [|split]]].
  - intros l1 t l2 E Hid Hnd. unfold deleteTask. simpl tasks. rewrite E in *.
    rewrite map_app in Hnd. simpl in Hnd.
    assert (Hother : forall x, In x (l1 ++ l2) -> id x <> id0).
    { intros x Hx Ex. apply NoDup_remove_2 in Hnd. apply Hnd.
      rewrite <- map_app, Hid, <- Ex. now apply in_map. }
    rewrite filter_app. simpl.
    rewrite (proj2 (jsstring_eqb_eq (id t) id0) Hid). simpl.
    rewrite !filter_other_id; [reflexivity | |];
      intros x Hx; apply Hother, in_or_app; auto.
  - intros H. unfold deleteTask. destruct st as [c ts u n]. unfold setTasks.
    simpl in *. now rewrite filter_other_id.
  - unfold deleteTask at 1. unfold setTasks at 1.
    rewrite filter_other_id; [now destruct (deleteTask id0 st)|].
    intros t Ht. now apply Hin in Ht.
  - clear Hin. intros Hnd. unfold deleteTask. simpl tasks.
    induction (tasks st) as [|x l IH]; simpl; [constructor|].
    inversion Hnd as [|? ? Hx Hl]; subst.
    destruct (jsstring_eqb (id x) id0); simpl; [now apply IH|].
    constructor; [|now apply IH]. intros H. apply Hx.
    apply in_map_iff in H as (y & Ey & Hy). apply filter_In in Hy as [Hy _].
    rewrite <- Ey. now apply in_map.
  - repeat split.
Qed.

Lemma deleteTask_removes_witness :
  tasks (deleteTask (lit "id0") (sampleApp [])) = [otherTask]
  /\ deleteTask (lit "id7") (sampleApp []) = sampleApp [].
Proof.
  destruct (deleteTask_removes (lit "id0") (sampleApp []))
    as (_ & H & _).
  destruct (deleteTask_removes (lit "id7") (sampleApp []))
    as (_ & _ & H' & _).
  split.
  - apply (H [] sampleTask [otherTask]); [reflexivity | reflexivity |].
    simpl. repeat constructor; simpl; intuition discriminate.
  - apply H'. simpl. intros t [<-|[<-|[]]]; discriminate.
Defined.

(** X8.  Adding a blank task and deleting it again gives back the state
    from before, provided the id drawn is not the id of a task already in
    the list. *)
Theorem addTask_deleteTask (st : AppState) (w : World) :
  (forall t, In t (tasks st) -> id t <> entropy w (uidCalls w)) ->
  deleteTask (entropy w (uidCalls w)) (fst (addTask st w)) = st.
Proof.
  intros Hfresh. destruct st as [c ts u n]. unfold addTask, deleteTask, bind,
    uid, ret, setTasks. simpl in *. rewrite filter_app. simpl.
  rewrite (proj2 (jsstring_eqb_eq _ _) eq_refl). simpl.
  now rewrite filter_other_id, app_nil_r.
Qed.

Lemma addTask_deleteTask_witness :
  deleteTask (lit "id2")
    (fst (addTask (sampleApp [])
            (mkWorld (entropy sampleWorld) 2 0 [] [])))
  = sampleApp [].
Proof.
  apply (addTask_deleteTask (sampleApp [])
           (mkWorld (entropy sampleWorld) 2 0 [] [])).
  simpl. intros t [<-|[<-|[]]]; discriminate.
Defined.

(** ** Editing *)

(** X9.  [saveEdit id] writes the name, description and time frame of the
    draft into the tasks with that id and into no other task; ids,
    check marks, the order and the rest of the state are kept, and the
    editor is closed with an empty draft. *)
Theorem saveEdit_frame (id0 : jsstring) (st : AppState) (e : EditState) :
  let st' := fst (saveEdit id0 st e) in
  map id (tasks st') = map id (tasks st)
  /\ map completed (tasks st') = map completed (tasks st)
  /\ (forall i t,
        nth_error (tasks st) i = Some t ->
        (id t <> id0 -> nth_error (tasks st') i = Some t)
        /\ (id t = id0 ->
            nth_error (tasks st') i
            = Some (mkTask (id t) (draftName (editDraft e))
                      (draftDescription (editDraft e))
                      (draftTimeframe (editDraft e)) (completed t))))
  /\ context st' = context st
  /\ webhookUrl st' = webhookUrl st
  /\ notice st' = notice st
  /\ snd (saveEdit id0 st e) = cancelEdit.
Proof.
  cbv zeta. unfold saveEdit. cbn [fst snd setTasks tasks context webhookUrl
                                    notice].
  split; [|split; [|split]].
  - rewrite map_map. apply map_ext. intros t.
    now destruct (jsstring_eqb (id t) id0).
  - rewrite map_map. apply map_ext. intros t.
    now destruct (jsstring_eqb (id t) id0).
  - intros i t Ht. rewrite nth_error_map, Ht. simpl. split; intros H.
    + destruct (jsstring_eqb (id t) id0) eqn:E; [|reflexivity].
      apply jsstring_eqb_eq in E. contradiction.
    + now rewrite (proj2 (jsstring_eqb_eq (id t) id0) H).
  - repeat split.
Qed.

Lemma map_fixed {A} (f : A -> A) l :
  (forall x, In x l -> f x = x) -> map f l = l.
Proof.
  intros H. rewrite <- (map_id l) at 2. now apply map_ext_in.
Qed.

(** X10.  Opening the editor on a task of a list with distinct ids and
    saving at once changes nothing: the draft taken by [startEdit] writes
    back the fields the task already has. *)
Theorem startEdit_saveEdit (task : Task) (st : AppState) :
  In task (tasks st) -> NoDup (map id (tasks st)) ->
  saveEdit (id task) st (startEdit task) = (st, cancelEdit).
Proof.
  intros Hin Hnd. unfold saveEdit. f_equal.
  rewrite <- (setTasks_same st) at 2. unfold setTasks. f_equal.
  apply map_fixed. intros t Ht. simpl.
  destruct (jsstring_eqb (id t) (id task)) eqn:E; [|reflexivity].
  apply jsstring_eqb_eq in E.
  assert (t = task) as -> by now apply (NoDup_map_inj id (tasks st)).
  now destruct task.
Qed.

Lemma startEdit_saveEdit_witness :
  saveEdit (lit "id0") (sampleApp []) (startEdit sampleTask)
  = (sampleApp [], cancelEdit).
Proof.
  apply (startEdit_saveEdit sampleTask (sampleApp [])).
  - simpl. now left.
  - simpl. repeat constructor; simpl; intuition discriminate.
Defined.

(** ** Check marks *)

Section Toggle.
Variable toISOString : Z -> jsstring.

Lemma toggleComplete_url task st w :
  webhookUrl (fst (toggleComplete toISOString task st w)) = webhookUrl st
  /\ context (fst (toggleComplete toISOString task st w)) = context st.
Proof.
  unfold toggleComplete. destruct (completed task); simpl; [now split|].
  destruct (falsy (webhookUrl st)); now split.
Qed.

(** X11.  Checking and un-checking the same row, in either order, gives
    back the task list of before, and the pair of clicks sends exactly one
    request when a URL is set and none when it is not. *)
Theorem toggleComplete_twice (task : Task) (st : AppState) (w : World) :
  In task (tasks st) -> NoDup (map id (tasks st)) ->
  let r1 := toggleComplete toISOString task st w in
  let task' :=
    mkTask (id task) (name task) (description task) (timeframe task)
      (negb (completed task)) in
  let r2 := toggleComplete toISOString task' (fst r1) (snd r1) in
  In task' (tasks (fst r1))
  /\ tasks (fst r2) = tasks st
  /\ (webhookUrl st <> [] -> exists rq, fetched (snd r2) = fetched w ++ [rq])
  /\ (webhookUrl st = [] -> fetched (snd r2) = fetched w).
Proof.
  intros Hin Hnd r1 task' r2.
  assert (Ht1 : tasks (fst r1)
                = map (fun t => if jsstring_eqb (id t) (id task)
                                then task' else t) (tasks st)).
  { unfold r1. now rewrite toggleComplete_tasks. }
  split; [|split; [|split]].
  - rewrite Ht1. apply in_map_iff. exists task. split; [|exact Hin].
    now rewrite (proj2 (jsstring_eqb_eq (id task) (id task)) eq_refl).
  - unfold r2. rewrite toggleComplete_tasks, Ht1, map_map.
    apply map_fixed. intros t Ht. simpl.
    destruct (jsstring_eqb (id t) (id task)) eqn:E.
    + simpl. rewrite (proj2 (jsstring_eqb_eq (id task) (id task)) eq_refl).
      apply jsstring_eqb_eq in E.
      assert (t = task) as -> by now apply (NoDup_map_inj id (tasks st)).
      rewrite negb_involutive. now destruct task.
    + now rewrite E.
  - intros Hurl. unfold r2, r1, task', toggleComplete.
    destruct (webhookUrl st) as [|c u] eqn:Eu; [congruence|].
    destruct (completed task); simpl; try rewrite Eu; simpl; eauto.
  - intros Hurl. unfold r2, r1, task', toggleComplete.
    destruct (completed task); simpl; rewrite ?Hurl; reflexivity.
Qed.

Lemma count_after_toggle (task : Task) (l : list Task) :
  In task l -> NoDup (map id l) ->
  length (filter completed
            (map (fun t =>
                    if jsstring_eqb (id t) (id task)
                    then mkTask (id task) (name task) (description task)
                           (timeframe task) (negb (completed task))
                    else t) l))
  + (if completed task then 1 else 0)
  = length (filter completed l) + (if completed task then 0 else 1).
Proof.
  induction l as [|x l IH]; intros Hin Hnd; [destruct Hin|].
  inversion Hnd as [|? ? Hx Hl]; subst. simpl map.
  destruct (jsstring_eqb (id x) (id task)) eqn:E.
  - apply jsstring_eqb_eq in E.
    assert (x = task) as ->.
    { destruct Hin as [|Hin]; [assumption|]. exfalso. apply Hx.
      rewrite E. now apply in_map. }
    rewrite map_fixed.
    + simpl. destruct (completed task); simpl; lia.
    + intros t Ht. destruct (jsstring_eqb (id t) (id task)) eqn:E';
        [|reflexivity].
      apply jsstring_eqb_eq in E'. exfalso. apply Hx. rewrite <- E'.
      now apply in_map.
  - assert (Hin' : In task l).
    { destruct Hin as [->|]; [|assumption].
      rewrite (proj2 (jsstring_eqb_eq (id task) (id task)) eq_refl) in E.
      discriminate. }
    specialize (IH Hin' Hl). simpl. destruct (completed x); simpl; lia.
Qed.

(** X12.  The counter of completed tasks follows the check box: in a list
    with distinct ids, checking a task of the list raises it by one and
    un-checking lowers it by one; it never exceeds the length of the
    list. *)
Theorem completedCount_toggle (task : Task) (st : AppState) (w : World) :
  In task (tasks st) -> NoDup (map id (tasks st)) ->
  (completed task = false ->
   completedCount (fst (toggleComplete toISOString task st w))
   = S (completedCount st))
  /\ (completed task = true ->
      S (completedCount (fst (toggleComplete toISOString task st w)))
      = completedCount st)
  /\ completedCount (fst (toggleComplete toISOString task st w))
     <= length (tasks st).
Proof.
  intros Hin Hnd. unfold completedCount. rewrite toggleComplete_tasks.
  pose proof (count_after_toggle task (tasks st) Hin Hnd) as H.
  split; [|split].
  - intros Hc. rewrite Hc in H |- *. simpl in H |- *. lia.
  - intros Hc. rewrite Hc in H |- *. simpl in H |- *. lia.
  - rewrite <- (length_map
                  (fun t => if jsstring_eqb (id t) (id task)
                            then mkTask (id task) (name task)
                                   (description task) (timeframe task)
                                   (negb (completed task))
                            else t) (tasks st)).
    apply filter_length_le.
Qed.

(** X13.  A task whose time frame is undefined is still announced: the
    request is sent and its body is the same JSON object with the member
    timeframe left out of the task. *)
Theorem toggleComplete_request_without_timeframe
  (task : Task) (st : AppState) (w : World) :
  completed task = false ->
  webhookUrl st <> [] ->
  timeframe task = None ->
  exists rq,
    fetched (snd (toggleComplete toISOString task st w)) = fetched w ++ [rq]
    /\ body rq
       = Some (JObj
           [ (lit "event", JStr (lit "task_completed"));
             (lit "timestamp", JStr (toISOString (clock w)));
             (lit "source", JStr (lit "taskgen-local-app"));
             (lit "version", JNum 1);
             (lit "task",
               JObj [ (lit "id", JStr (id task));
                      (lit "name", JStr (name task));
                      (lit "description", JStr (description task));
                      (lit "completed", JBool true) ]);
             (lit "context", JStr (context st)) ]).
Proof.
  intros Hc Hurl Htf. unfold toggleComplete. rewrite Hc. simpl.
  destruct (webhookUrl st) as [|c u] eqn:E; [congruence|]. simpl.
  rewrite Htf. eexists. split; reflexivity.
Qed.

End Toggle.

Lemma toggleComplete_twice_witness :
  tasks (fst (toggleComplete sampleISO (markComplete sampleTask)
                (fst (toggleComplete sampleISO sampleTask
                        (sampleApp (lit "https://example.test/hook"))
                        sampleWorld))
                (snd (toggleComplete sampleISO sampleTask
                        (sampleApp (lit "https://example.test/hook"))
                        sampleWorld))))
  = [sampleTask; otherTask].
Proof.
  destruct (toggleComplete_twice sampleISO sampleTask
              (sampleApp (lit "https://example.test/hook")) sampleWorld)
    as (_ & H & _).
  - simpl. now left.
  - simpl. repeat constructor; simpl; intuition discriminate.
  - exact H.
Defined.

Lemma completedCount_toggle_witness :
  completedCount (fst (toggleComplete sampleISO sampleTask (sampleApp [])
                         sampleWorld)) = 2.
Proof.
  destruct (completedCount_toggle sampleISO sampleTask (sampleApp [])
              sampleWorld) as (H & _).
  - simpl. now left.
  - simpl. repeat constructor; simpl; intuition discriminate.
  - apply H. reflexivity.
Defined.

Lemma toggleComplete_request_without_timeframe_witness :
  exists rq,
    fetched (snd (toggleComplete sampleISO
                    (mkTask (lit "id9") (lit "New Task") [] None false)
                    (sampleApp (lit "https://example.test/hook"))
                    sampleWorld)) = [] ++ [rq]
    /\ body rq
       = Some (JObj
           [ (lit "event", JStr (lit "task_completed"));
             (lit "timestamp", JStr (lit "2026-01-01T00:00:00.000Z"));
             (lit "source", JStr (lit "taskgen-local-app"));
             (lit "version", JNum 1);
             (lit "task",
               JObj [ (lit "id", JStr (lit "id9"));
                      (lit "name", JStr (lit "New Task"));
                      (lit "description", JStr []);
                      (lit "completed", JBool true) ]);
             (lit "context", JStr (lit "random babble")) ]).
Proof.
  apply (toggleComplete_request_without_timeframe sampleISO
           (mkTask (lit "id9") (lit "New Task") [] None false)
           (sampleApp (lit "https://example.test/hook")) sampleWorld).
  - reflexivity.
  - discriminate.
  - reflexivity.
Defined.

(** ** Generation from the input field *)

(** X14.  With a text that is not blank, [addGenerated] throws the old
    list away: the new list is the one generated from the text (its outer
    white space does not matter), with 3 to 5 tasks, none completed, and
    the notice tells their number.  Five ids are drawn. *)
Theorem addGenerated_replaces (st : AppState) (w : World) :
  forallb isWhiteSpace (context st) = false ->
  let st' := fst (addGenerated st w) in
  tasks st' = fst (generateTasks (context st) w)
  /\ 3 <= length (tasks st') <= 5
  /\ completedCount st' = 0
  /\ notice st'
     = Some {| type := success;
               message := lit "Generated "
                            ++ decimal (N.of_nat (length (tasks st')))
                            ++ lit " task(s)." |}
  /\ context st' = context st
  /\ webhookUrl st' = webhookUrl st
  /\ uidCalls (snd (addGenerated st w)) = 5 + uidCalls w.
Proof.
  intros Hblank. cbv zeta. unfold addGenerated.
  destruct (falsy (trim (context st))) eqn:E.
  { apply falsy_true, trim_empty in E. congruence. }
  destruct (trim_split (context st)) as (a & b & Es & Ha & Hb).
  assert (Eg : generateTasks (trim (context st)) w
               = generateTasks (context st) w).
  { rewrite Es at 2. symmetry. now apply generateTasks_pad. }
  unfold bind. rewrite Eg.
  destruct (generateTasks_firstn (context st) w) as (n & _ & Hn & Ef).
  rewrite generateTasks_eq in *. cbn [fst snd] in *.
  cbn [setNotice setTasks tasks context webhookUrl notice uidCalls].
  rewrite Ef. unfold completedCount. cbn [tasks].
  assert (Hcases : n = 3 \/ n = 4 \/ n = 5) by lia.
  destruct Hcases as [-> | [-> | ->]]; repeat split; simpl; lia.
Qed.

Lemma addGenerated_replaces_witness :
  length (tasks (fst (addGenerated
                        (mkApp (lit "  gym, 4 tasks ") [otherTask] [] None)
                        sampleWorld))) = 4.
Proof.
  destruct (addGenerated_replaces
              (mkApp (lit "  gym, 4 tasks ") [otherTask] [] None) sampleWorld
              eq_refl) as (H & _).
  rewrite H. reflexivity.
Defined.

(** ** Settlements *)

(** X15.  Once the promise chain of the request has run, that is when
    [fetch] has rejected or the body of the response has been read or its
    read has failed, there is a notice: the success notice exactly for a
    response with a status in 200..299, the error notice in every other
    case.  As long as the body read is not settled, nothing at all
    changes.  In every case nothing of the state but the notice and nothing
    of the world but the console changes, and the console gets at most one
    new entry. *)
Theorem settle_notice (o : Settled) (st : AppState) (w : World) :
  ((forall res, o = Fulfilled res -> text res <> TextPending) ->
   exists n,
     notice (fst (settle o st w)) = Some n
     /\ (type n = success <->
         exists res, o = Fulfilled res /\ (200 <= status res <= 299)%N)
     /\ (type n <> success -> type n = error))
  /\ ((exists res, o = Fulfilled res /\ text res = TextPending) ->
      settle o st w = (st, w))
  /\ context (fst (settle o st w)) = context st
  /\ tasks (fst (settle o st w)) = tasks st
  /\ webhookUrl (fst (settle o st w)) = webhookUrl st
  /\ (exists entries,
        snd (settle o st w)
        = mkWorld (entropy w) (uidCalls w) (clock w) (fetched w)
            (console w ++ entries)
        /\ length entries <= 1).
Proof.
  assert (Hok : forall res,
             ok res = true <-> (200 <= status res <= 299)%N).
  { intros res. unfold ok, in_range.
    rewrite andb_true_iff, !N.leb_le. tauto. }
  assert (Hnone : snd (ret st w)
                  = mkWorld (entropy w) (uidCalls w) (clock w) (fetched w)
                      (console w ++ [])).
  { rewrite app_nil_r. now destruct w. }
  assert (Hnotice : forall res,
             text res <> TextPending ->
             notice (fst (settle (Fulfilled res) st w))
             = Some {| type := if ok res then success else error;
                       message :=
                         if ok res then lit "Webhook sent successfully."
                         else lit "Webhook failed: " ++ decimal (status res)
                                ++ lit " " ++ statusText res |}).
  { intros res Hp. simpl. unfold webhookThen, bind.
    destruct (text res) as [b| |]; [| |congruence]; simpl.
    - destruct (negb (ok res) && negb (falsy b)); reflexivity.
    - destruct (ok res); reflexivity. }
  split; [|split; [|split; [|split; [|split]]]].
  - intros Hp. destruct o as [res|err].
    + rewrite (Hnotice res (Hp res eq_refl)). eexists.
      split; [reflexivity|]. cbn [type].
      destruct (ok res) eqn:E; split.
      * split; [intros _ | reflexivity].
        exists res. split; [reflexivity | now apply Hok].
      * congruence.
      * split; [discriminate|].
        intros (res' & [= <-] & H). apply Hok in H. congruence.
      * reflexivity.
    + simpl. eexists. split; [reflexivity|]. cbn [type]. split.
      * split; [discriminate | intros (res' & [=] & _)].
      * reflexivity.
  - intros (res & -> & Hp). simpl. unfold webhookThen. now rewrite Hp.
  - destruct o as [res|err]; [|reflexivity]. simpl. unfold webhookThen, bind.
    destruct (text res) as [b| |]; simpl;
      [destruct (negb (ok res) && negb (falsy b)) | destruct (ok res) |];
      reflexivity.
  - apply settle_tasks.
  - destruct o as [res|err]; [|reflexivity]. simpl. unfold webhookThen, bind.
    destruct (text res) as [b| |]; simpl;
      [destruct (negb (ok res) && negb (falsy b)) | destruct (ok res) |];
      reflexivity.
  - destruct o as [res|err].
    + simpl. unfold webhookThen, bind. destruct (text res) as [b| |]; simpl.
      * destruct (negb (ok res) && negb (falsy b)); simpl.
        -- eexists. split; [reflexivity | simpl; lia].
        -- exists []. split; [exact Hnone | simpl; lia].
      * destruct (ok res); simpl;
          exists []; (split; [exact Hnone | simpl; lia]).
      * exists []. split; [exact Hnone | simpl; lia].
    + simpl. eexists. split; [reflexivity | simpl; lia].
Qed.

(** ** What holds after every run of events *)

Lemma generated_timeframes ctx w t :
  In t (fst (generateTasks ctx w)) -> timeframe t <> None.
Proof.
  destruct (generateTasks_firstn ctx w) as (n & _ & _ & ->).
  intros Ht. apply In_prefix in Ht. unfold allTasks in Ht.
  apply in_map_iff in Ht as ([i b] & <- & Hin). cbn [taskAt timeframe fst].
  destruct (pickTimeframe_defined (Z.of_nat i + offsetOf (inferDomain ctx)))
    as (label & -> & _); [|discriminate].
  unfold offsetOf. destruct (domain_eqb _ _); lia.
Qed.

Lemma generated_ids ctx w :
  exists n, n <= 5
    /\ map id (fst (generateTasks ctx w)) = map (entropy w) (seq (uidCalls w) n)
    /\ snd (generateTasks ctx w)
       = mkWorld (entropy w) (5 + uidCalls w) (clock w) (fetched w) (console w).
Proof.
  destruct (generateTasks_firstn ctx w) as (n & _ & Hn & E).
  exists n. rewrite E, generateTasks_eq. cbn [snd].
  split; [lia|]. split; [|reflexivity].
  assert (Hcases : n = 3 \/ n = 4 \/ n = 5) by lia.
  destruct Hcases as [-> | [-> | ->]]; reflexivity.
Qed.

Lemma NoDup_map_injective {A B} (f : A -> B) l :
  (forall a b, f a = f b -> a = b) -> NoDup l -> NoDup (map f l).
Proof.
  intros Hf. induction 1 as [|x l Hx Hl IH]; simpl; constructor; auto.
  intros Hin. apply in_map_iff in Hin as (y & E & Hy).
  apply Hf in E. now subst.
Qed.

Lemma toggled_ids task (l : list Task) :
  map id
    (map (fun t =>
            if jsstring_eqb (id t) (id task)
            then mkTask (id task) (name task) (description task)
                   (timeframe task) (negb (completed task))
            else t) l)
  = map id l.
Proof.
  rewrite map_map. apply map_ext. intros t.
  destruct (jsstring_eqb (id t) (id task)) eqn:E; [|reflexivity].
  apply jsstring_eqb_eq in E. now rewrite E.
Qed.

Lemma In_same_ids {P : jsstring -> Prop} (l l' : list Task) :
  map id l' = map id l ->
  (forall t, In t l -> P (id t)) -> forall t, In t l' -> P (id t).
Proof.
  intros E H t Ht. apply (in_map id) in Ht. rewrite E in Ht.
  apply in_map_iff in Ht as (x & <- & Hx). now apply H.
Qed.

Lemma onRow_cases u i editor k w :
  onRow u i editor k w = (u, w)
  \/ exists t, nth_error (tasks (uiApp u)) i = Some t
               /\ onRow u i editor k w = k t w.
Proof.
  unfold onRow. destruct (nth_error (tasks (uiApp u)) i) as [t|] eqn:E;
    [|now left].
  destruct (Bool.eqb (inEditor u t) editor); [right; eauto | now left].
Qed.

Ltac row_case u w t Et :=
  match goal with
  | |- context [onRow u ?j ?ed ?k w] =>
      destruct (onRow_cases u j ed k w) as [-> | (t & Et & ->)]
  end.

Section Runs.
Variable toISOString : Z -> jsstring.

Lemma addGenerated_cases st w :
  (tasks (fst (addGenerated st w)) = tasks st /\ snd (addGenerated st w) = w)
  \/ (tasks (fst (addGenerated st w))
      = fst (generateTasks (trim (context st)) w)
      /\ snd (addGenerated st w) = snd (generateTasks (trim (context st)) w)).
Proof.
  unfold addGenerated. destruct (falsy (trim (context st))); [now left|].
  right. unfold bind. now destruct (generateTasks (trim (context st)) w).
Qed.

Lemma handle_timeframes e u w :
  timeframesDefined u -> timeframesDefined (fst (handle toISOString e u w)).
Proof.
  intros Hu. pose proof Hu as [Ht Hd]. unfold timeframesDefined.
  assert (Hrow : forall i t, nth_error (tasks (uiApp u)) i = Some t ->
                             timeframe t <> None).
  { intros i t E. rewrite Forall_forall in Ht. apply Ht.
    now apply nth_error_In in E. }
  destruct e as [s|s| | |i|i|i|i s|i s|i s|i|i| |o|t0]; cbn [handle].
  - exact Hu.
  - exact Hu.
  - (* Generate *)
    unfold bind. destruct (addGenerated (uiApp u) w) as [a' w'] eqn:E.
    simpl. split; [|exact Hd].
    destruct (addGenerated_cases (uiApp u) w) as [[H _] | [H _]];
      rewrite E in H; simpl in H; rewrite H; [exact Ht|].
    apply Forall_forall. intros t. apply generated_timeframes.
  - (* Add blank *)
    simpl. split; [|exact Hd]. apply Forall_app. split; [exact Ht|].
    constructor; [|constructor]. simpl.
    destruct (pickTimeframe_defined
                (Z.of_nat (length (tasks (uiApp u))))) as (l & -> & _);
      [lia | discriminate].
  - (* Checkbox *)
    destruct (nth_error (tasks (uiApp u)) i) as [t|] eqn:Et; [|exact Hu].
    unfold bind.
    destruct (toggleComplete toISOString t (uiApp u) w) as [a' w'] eqn:E.
    simpl. split; [|exact Hd].
    replace a' with (fst (toggleComplete toISOString t (uiApp u) w))
      by now rewrite E.
    rewrite toggleComplete_tasks. apply Forall_forall. intros x Hx.
    apply in_map_iff in Hx as (y & <- & Hy).
    destruct (jsstring_eqb (id y) (id t)); simpl; [now apply (Hrow i)|].
    rewrite Forall_forall in Ht. now apply Ht.
  - (* Edit *)
    row_case u w t Et; [exact Hu|].
    simpl. split; [exact Ht | now apply (Hrow i)].
  - (* Delete *)
    row_case u w t Et; [exact Hu|].
    simpl. split; [|exact Hd]. apply Forall_forall. intros x Hx.
    apply filter_In in Hx as [Hx _]. rewrite Forall_forall in Ht.
    now apply Ht.
  - row_case u w t Et; exact Hu.
  - row_case u w t Et; exact Hu.
  - (* Type the time frame *)
    row_case u w t Et; [exact Hu|].
    simpl. split; [exact Ht | discriminate].
  - (* Save *)
    row_case u w t Et; [exact Hu|].
    simpl. split; [|discriminate]. apply Forall_forall. intros x Hx.
    apply in_map_iff in Hx as (y & <- & Hy).
    destruct (jsstring_eqb (id y) (id t)); simpl; [exact Hd|].
    rewrite Forall_forall in Ht. now apply Ht.
  - (* Cancel *)
    row_case u w t Et; [exact Hu|].
    simpl. split; [exact Ht | discriminate].
  - exact Hu.
  - (* Settlement *)
    unfold bind. destruct (settle o (uiApp u) w) as [a' w'] eqn:E.
    simpl. split; [|exact Hd].
    replace a' with (fst (settle o (uiApp u) w)) by now rewrite E.
    now rewrite settle_tasks.
  - exact Hu.
Qed.

(** X16.  When the stored tasks all have a time frame, so has every task
    of every state the component can reach, whatever the user does and
    however the requests settle: the member timeframe of a notification is
    never left out. *)
Theorem run_timeframes (es : list Event) (stored : list Task)
  (storedUrl : jsstring) (w : World) :
  Forall (fun t => timeframe t <> None) stored ->
  forall t,
    In t (tasks (uiApp (fst (run toISOString es (initialUi stored storedUrl)
                               w)))) ->
    exists label, timeframe t = Some label.
Proof.
  intros Hs.
  assert (Hinv : timeframesDefined
                   (fst (run toISOString es (initialUi stored storedUrl) w))).
  { assert (H0 : timeframesDefined (initialUi stored storedUrl))
      by (split; [exact Hs | discriminate]).
    revert H0. generalize (initialUi stored storedUrl). revert w.
    induction es as [|e es IH]; intros w u Hu; [exact Hu|].
    simpl. unfold bind.
    pose proof (handle_timeframes e u w Hu) as Hstep.
    destruct (handle toISOString e u w) as [u' w']. now apply IH. }
  intros t Ht. destruct Hinv as [Hall _]. rewrite Forall_forall in Hall.
  specialize (Hall t Ht). destruct (timeframe t); [eauto | congruence].
Qed.

End Runs.

Lemma NoDup_snoc {A} (l : list A) x : NoDup l -> ~ In x l -> NoDup (l ++ [x]).
Proof.
  induction 1 as [|y l Hy Hl IH]; intros Hx; simpl.
  - constructor; [tauto | constructor].
  - constructor.
    + rewrite in_app_iff. simpl. intros [H|[H|[]]]; [tauto|].
      apply Hx. now left.
    + apply IH. intros H. apply Hx. now right.
Qed.

Lemma NoDup_filter_ids (p : Task -> bool) (l : list Task) :
  NoDup (map id l) -> NoDup (map id (filter p l)).
Proof.
  induction l as [|x l IH]; simpl; intros Hnd; [constructor|].
  inversion Hnd as [|? ? Hx Hl]; subst.
  destruct (p x); simpl; [|now apply IH].
  constructor; [|now apply IH]. intros H. apply Hx.
  apply in_map_iff in H as (y & Ey & Hy). apply filter_In in Hy as [Hy _].
  rewrite <- Ey. now apply in_map.
Qed.

Section RunsOfEvents.
Variable toISOString : Z -> jsstring.

Lemma toggleComplete_world task st w :
  entropy (snd (toggleComplete toISOString task st w)) = entropy w
  /\ uidCalls (snd (toggleComplete toISOString task st w)) = uidCalls w.
Proof.
  unfold toggleComplete. destruct (completed task); simpl; [now split|].
  destruct (falsy (webhookUrl st)); now split.
Qed.

Lemma settle_world o st w :
  entropy (snd (settle o st w)) = entropy w
  /\ uidCalls (snd (settle o st w)) = uidCalls w.
Proof.
  destruct o as [res|err]; simpl; unfold webhookThen, webhookCatch, bind.
  - destruct (text res) as [b| |]; simpl;
      [destruct (negb (ok res) && negb (falsy b)) | destruct (ok res) |];
      now split.
  - now split.
Qed.

Lemma handle_ids stored e u w :
  (forall a b, entropy w a = entropy w b -> a = b) ->
  (forall t k, In t stored -> id t <> entropy w k) ->
  idsKnown stored u w ->
  idsKnown stored (fst (handle toISOString e u w))
    (snd (handle toISOString e u w))
  /\ entropy (snd (handle toISOString e u w)) = entropy w.
Proof.
  intros Hinj Hst Hu. pose proof Hu as [Hnd Hk].
  assert (Hsame : forall u' w',
             map id (tasks (uiApp u')) = map id (tasks (uiApp u)) ->
             entropy w' = entropy w -> uidCalls w' = uidCalls w ->
             idsKnown stored u' w' /\ entropy w' = entropy w).
  { intros u' w' Eid Ee Ec. split; [|exact Ee]. split; [now rewrite Eid|].
    rewrite Ee, Ec.
    apply (In_same_ids
             (P := fun i => In i (map id stored)
                            \/ exists k, k < uidCalls w /\ i = entropy w k)
             (tasks (uiApp u)) (tasks (uiApp u')) Eid Hk). }
  destruct e as [s|s| | |i|i|i|i s|i s|i s|i|i| |o|t0]; cbn [handle];
    try (now apply Hsame);
    try (row_case u w t Et; [now apply Hsame|]; now apply Hsame).
  - (* Generate *)
    unfold bind. destruct (addGenerated (uiApp u) w) as [a' w'] eqn:E.
    cbn [fst snd ret].
    destruct (addGenerated_cases (uiApp u) w) as [[H1 H2] | [H1 H2]];
      rewrite E in H1, H2; cbn [fst snd] in H1, H2.
    + subst w'. apply Hsame; simpl; congruence.
    + destruct (generated_ids (trim (context (uiApp u))) w)
        as (n & Hn & Hids & Hw).
      rewrite <- H1 in Hids. rewrite <- H2 in Hw. subst w'. cbn [entropy].
      split; [|reflexivity]. split; cbn [uiApp uidCalls entropy].
      * rewrite Hids. apply NoDup_map_injective; [exact Hinj|].
        apply seq_NoDup.
      * intros t Ht. right. apply (in_map id) in Ht. rewrite Hids in Ht.
        apply in_map_iff in Ht as (k & Ek & Hin). apply in_seq in Hin.
        exists k. split; [simpl; lia | now symmetry].
  - (* Add blank *)
    unfold addTask, bind, uid, ret, setTasks, idsKnown.
    cbn [fst snd uiApp tasks entropy uidCalls].
    split; [|reflexivity]. split.
    + rewrite map_app. simpl. apply NoDup_snoc; [exact Hnd|].
      intros Hin. apply in_map_iff in Hin as (t & Et & Ht).
      destruct (Hk t Ht) as [Hs | (k & Hlt & Ek)].
      * apply in_map_iff in Hs as (t' & Et' & Ht').
        apply (Hst t' (uidCalls w) Ht'). congruence.
      * rewrite Ek in Et. apply Hinj in Et. lia.
    + intros t Ht. apply in_app_or in Ht as [Ht | [<- | []]].
      * destruct (Hk t Ht) as [Hs | (k & Hlt & Ek)]; [now left|].
        right. exists k. split; [lia | exact Ek].
      * right. exists (uidCalls w). split; [lia | reflexivity].
  - (* Checkbox *)
    destruct (nth_error (tasks (uiApp u)) i) as [t|] eqn:Et;
      [|now apply Hsame].
    unfold bind.
    pose proof (toggleComplete_tasks toISOString t (uiApp u) w) as Htasks.
    pose proof (toggleComplete_world t (uiApp u) w) as [He Hc].
    destruct (toggleComplete toISOString t (uiApp u) w) as [a' w'].
    cbn [fst snd ret] in *. apply Hsame; auto. cbn [uiApp].
    rewrite Htasks. apply toggled_ids.
  - (* Delete *)
    row_case u w t Et; [now apply Hsame|]. cbn [ret fst snd].
    split; [|reflexivity]. split; cbn [uiApp deleteTask setTasks tasks].
    + now apply NoDup_filter_ids.
    + intros x Hx. apply filter_In in Hx as [Hx _]. now apply Hk.
  - (* Save *)
    row_case u w t Et; [now apply Hsame|]. cbn [saveEdit ret fst snd].
    apply Hsame; auto. cbn [uiApp setTasks tasks].
    rewrite map_map. apply map_ext. intros x.
    now destruct (jsstring_eqb (id x) (id t)).
  - (* Settlement *)
    unfold bind.
    pose proof (settle_tasks o (uiApp u) w) as Htasks.
    pose proof (settle_world o (uiApp u) w) as [He Hc].
    destruct (settle o (uiApp u) w) as [a' w'].
    cbn [fst snd ret] in *. apply Hsame; auto. cbn [uiApp]. now rewrite Htasks.
Qed.

(** X17.  The ids of the list stay pairwise different in every state the
    component can reach, provided [uid] never draws the same string twice,
    the stored tasks have different ids, and no stored id is drawn
    again. *)
Theorem run_ids (es : list Event) (stored : list Task)
  (storedUrl : jsstring) (w : World) :
  (forall a b, entropy w a = entropy w b -> a = b) ->
  NoDup (map id stored) ->
  (forall t k, In t stored -> id t <> entropy w k) ->
  NoDup (map id (tasks (uiApp (fst (run toISOString es
                                      (initialUi stored storedUrl) w))))).
Proof.
  intros Hinj Hnd Hst.
  assert (H0 : idsKnown stored (initialUi stored storedUrl) w).
  { split; [exact Hnd|]. intros t Ht. left. now apply in_map. }
  revert H0 Hinj Hst. generalize (initialUi stored storedUrl). revert w.
  induction es as [|e es IH]; intros w u Hu Hinj Hst; [apply Hu|].
  simpl. unfold bind.
  destruct (handle_ids stored e u w Hinj Hst Hu) as [Hu' He].
  destruct (handle toISOString e u w) as [u' w']. cbn [fst snd] in *.
  apply IH; [exact Hu' | |]; rewrite He; assumption.
Qed.

Lemma handle_fetched e u w :
  fetched (snd (handle toISOString e u w)) = fetched w
  \/ (isCheckbox e = true
      /\ exists rq,
           fetched (snd (handle toISOString e u w)) = fetched w ++ [rq]
           /\ wellFormed rq).
Proof.
  destruct e as [s|s| | |i|i|i|i s|i s|i s|i|i| |o|t0]; cbn [handle];
    try (now left);
    try (row_case u w t Et; now left).
  - (* Generate *)
    left. unfold bind. destruct (addGenerated (uiApp u) w) as [a' w'] eqn:E.
    cbn [snd ret].
    destruct (addGenerated_cases (uiApp u) w) as [[_ H] | [_ H]];
      rewrite E in H; cbn [snd] in H; subst w'; [reflexivity|].
    destruct (generated_ids (trim (context (uiApp u))) w) as (n & _ & _ & ->).
    reflexivity.
  - (* Checkbox *)
    destruct (nth_error (tasks (uiApp u)) i) as [t|]; [|now left].
    unfold bind, toggleComplete.
    destruct (completed t); simpl; [now left|].
    destruct (webhookUrl (uiApp u)) as [|c url] eqn:Eu; simpl; [now left|].
    right. split; [reflexivity|]. eexists. split; [reflexivity|].
    repeat split; simpl; discriminate.
  - (* Settlement *)
    left. unfold bind.
    pose proof (settle_fetched o (uiApp u) w) as H.
    destruct (settle o (uiApp u) w) as [a' w']. exact H.
Qed.

(** X18.  Whatever happens, the component only ever adds to the requests
    sent, at most one for each click on a check box and none for anything
    else (no retry, nothing on a settlement), and each request it adds is
    a POST to a URL that is not empty, with the single header
    Content-Type: application/json and a body. *)
Theorem run_requests (es : list Event) (u : Ui) (w : World) :
  exists sent,
    fetched (snd (run toISOString es u w)) = fetched w ++ sent
    /\ Forall wellFormed sent
    /\ length sent <= length (filter isCheckbox es).
Proof.
  revert u w. induction es as [|e es IH]; intros u w.
  - exists []. simpl. rewrite app_nil_r. repeat split; auto.
  - simpl run. unfold bind.
    pose proof (handle_fetched e u w) as Hstep.
    destruct (handle toISOString e u w) as [u' w']. cbn [snd] in Hstep.
    destruct (IH u' w') as (sent & Es & Hwf & Hlen).
    destruct Hstep as [E | (Hc & rq & E & Hrq)].
    + exists sent. rewrite Es, E. repeat split; auto.
      simpl. destruct (isCheckbox e); simpl; lia.
    + exists (rq :: sent). rewrite Es, E, <- app_assoc.
      repeat split; auto. simpl. rewrite Hc. simpl. lia.
Qed.

End RunsOfEvents.

Lemma run_timeframes_witness :
  exists label, timeframe (markComplete sampleTask) = Some label.
Proof.
  apply (run_timeframes sampleISO [ClickCheckbox 0] [sampleTask; otherTask]
           [] sampleWorld).
  - repeat constructor; discriminate.
  - simpl. left. reflexivity.
Defined.

Lemma run_ids_witness :
  NoDup (map id (tasks (uiApp (fst
    (run sampleISO [TypeContext (lit "gym"); ClickGenerate; ClickAddBlank]
       (initialUi [storedTask] []) countingWorld))))).
Proof.
  apply (run_ids sampleISO
           [TypeContext (lit "gym"); ClickGenerate; ClickAddBlank]
           [storedTask] [] countingWorld).
  - intros a b H. apply (f_equal (@length N)) in H. simpl in H.
    rewrite !repeat_length in H. now injection H.
  - simpl. repeat constructor. simpl. tauto.
  - intros t k [<-|[]]. simpl. discriminate.
Defined.

Example run_session :
  map id (tasks (uiApp (fst
    (run sampleISO
       [TypeContext (lit " gym, 3 tasks"); ClickGenerate; ClickAddBlank;
        ClickCheckbox 1; ClickDelete 0]
       (initialUi [storedTask] (lit "https://example.test/hook"))
       countingWorld))))
  = [lit "aa"; lit "aaa"; lit "aaaaaa"]
  /\ length (fetched (snd
       (run sampleISO
          [TypeContext (lit " gym, 3 tasks"); ClickGenerate; ClickAddBlank;
           ClickCheckbox 1; ClickDelete 0]
          (initialUi [storedTask] (lit "https://example.test/hook"))
          countingWorld))) = 1.
Proof. split; reflexivity. Qed.

Lemma generateTasks_labels_witness :
  exists label,
    timeframe (taskAt exam sampleWorld 0 (research, lit "Research essentials"))
    = Some label
    /\ In label DEFAULT_TIMEFRAMES.
Proof.
  destruct (generateTasks_labels (lit "exam") sampleWorld) as (H & _).
  apply H. simpl. left. reflexivity.
Defined.

Lemma saveEdit_frame_witness :
  nth_error
    (tasks (fst (saveEdit (lit "id0") (sampleApp [])
                   (mkEdit (Some (lit "id0"))
                      (mkDraft (lit "Read") (lit "Two chapters")
                         (Some (lit "1 day")))))))
    1
  = Some otherTask.
Proof.
  destruct (saveEdit_frame (lit "id0") (sampleApp [])
              (mkEdit (Some (lit "id0"))
                 (mkDraft (lit "Read") (lit "Two chapters")
                    (Some (lit "1 day")))))
    as (_ & _ & H & _).
  destruct (H 1 otherTask eq_refl) as [Hother _].
  apply Hother. discriminate.
Defined.

Lemma settle_notice_witness :
  exists n,
    notice (fst (settle (Fulfilled (mkResponse 404 (lit "Not Found")
                                      (TextRead (lit "no such hook"))))
                   (sampleApp (lit "https://example.test/hook")) sampleWorld))
    = Some n
    /\ type n = error.
Proof.
  destruct (settle_notice
              (Fulfilled (mkResponse 404 (lit "Not Found")
                            (TextRead (lit "no such hook"))))
              (sampleApp (lit "https://example.test/hook")) sampleWorld)
    as (Hset & _).
  destruct Hset as (n & Hn & Hiff & Herr).
  - intros res E. injection E as <-. discriminate.
  - exists n. split; [exact Hn|]. apply Herr. intros Hs.
    apply Hiff in Hs as (res & E & Hr). injection E as <-. simpl in Hr. lia.
Defined.
